(** * SDLC_identifier.py: a decision-tree builder over a pandas table

    A shallow embedding of [src/SDLC_identifier.py] (Question, unique_vals,
    class_counts, partition, gini, info_gain, find_best_split, Leaf,
    Decision_Node, build_tree) and the properties of its specification.

    Reading of the Python data:
    - a cell of the table is a number or a category label ([scalar]), compared
      with one equality; missing cells (NaN) are outside the model;
    - a [DataFrame] is its column names, in order, and its rows, in order; a
      row holds one cell per column ([wf]);
    - [partition] hands back the Python list [[]] for an empty side, which is
      not a DataFrame: [table] keeps the two apart, since [len] accepts both
      and indexing by a column name does not;
    - exceptions are values ([Raise]); every function returns an [outcome];
    - a dict is an association list in insertion order;
    - Python numbers are read through the interface [Arithmetic]:
      [binary64] is the arithmetic the interpreter runs (IEEE 754 doubles,
      with [p**2] read as the correctly rounded product [p*p]), [exact] is
      arithmetic on rationals. What does not depend on the arithmetic is
      proved for every instance; counts and lengths are [nat]; the
      interpreter's recursion limit is not modelled. *)

From Stdlib Require Import String List ZArith QArith Qreduction Lia Bool Arith.
From Stdlib Require Import Floats Uint63 Permutation Setoid Morphisms Lqa.
From Stdlib Require Import DecimalString.
Import ListNotations.

Local Open Scope string_scope.
Local Open Scope nat_scope.
Local Open Scope list_scope.

(** ** Cells *)

Inductive scalar : Type :=
| Num (z : Z)
| Cat (s : string).

Definition scalar_eqb (a b : scalar) : bool :=
  match a, b with
  | Num x, Num y => Z.eqb x y
  | Cat x, Cat y => String.eqb x y
  | _, _ => false
  end.

(** ** Exceptions and outcomes *)

Inductive exn : Type :=
| KeyError
| TypeError
| ValueError
| ZeroDivisionError
| AttributeError.

Inductive outcome (A : Type) : Type :=
| Ok (a : A)
| Raise (e : exn).

Arguments Ok {A} a.
Arguments Raise {A} e.

Definition bind {A B : Type} (m : outcome A) (k : A -> outcome B) : outcome B :=
  match m with
  | Ok a => k a
  | Raise e => Raise e
  end.

Notation "x <- m ;; k" := (bind m (fun x => k))
  (at level 61, m at next level, right associativity).
Notation "' p <- m ;; k" := (bind m (fun x => let p := x in k))
  (at level 61, p pattern, m at next level, right associativity).

(** A [for] loop whose body may raise: the state is threaded through the
    elements in order. *)
Fixpoint foldM {A S : Type} (body : S -> A -> outcome S) (l : list A) (s : S)
  : outcome S :=
  match l with
  | [] => Ok s
  | a :: l' => s' <- body s a ;; foldM body l' s'
  end.

(** ** Arithmetic *)

Class Arithmetic : Type := {
  num : Type;
  of_int : nat -> num;            (* an int used as a number, float(n) *)
  sub : num -> num -> num;
  mul : num -> num -> num;
  div : num -> num -> num;        (* the divisor is not zero *)
  ge : num -> num -> bool;        (* x >= y *)
  eqb : num -> num -> bool;       (* x == y *)
  eqb_zero : eqb (of_int 0) (of_int 0) = true
}.

Definition float_of_nat (n : nat) : float :=
  PrimFloat.of_uint63 (Uint63.of_Z (Z.of_nat n)).

Definition binary64 : Arithmetic := {|
  num := float;
  of_int := float_of_nat;
  sub := PrimFloat.sub;
  mul := PrimFloat.mul;
  div := PrimFloat.div;
  ge := fun x y => PrimFloat.leb y x;
  eqb := PrimFloat.eqb;
  eqb_zero := eq_refl
|}.

Definition exact : Arithmetic := {|
  num := Q;
  of_int := fun n => inject_Z (Z.of_nat n);
  sub := fun x y => Qred (x - y);
  mul := fun x y => Qred (x * y);
  div := fun x y => Qred (x / y);
  ge := fun x y => Qle_bool y x;
  eqb := Qeq_bool;
  eqb_zero := eq_refl
|}.

(** ** Dicts, in insertion order *)

Module Dict.
Definition t : Type := list (scalar * nat).

Fixpoint get (k : scalar) (d : t) : option nat :=
  match d with
  | [] => None
  | (k', v) :: d' => if scalar_eqb k k' then Some v else get k d'
  end.

Definition mem (k : scalar) (d : t) : bool :=
  match get k d with Some _ => true | None => false end.

(** [d[k] = v]: an existing key keeps its place, a new one goes last. *)
Fixpoint set (k : scalar) (v : nat) (d : t) : t :=
  match d with
  | [] => [(k, v)]
  | (k', v') :: d' =>
      if scalar_eqb k k' then (k', v) :: d' else (k', v') :: set k v d'
  end.

Definition keys (d : t) : list scalar := map fst d.
Definition values (d : t) : list nat := map snd d.

(** The counts of a dict, added up. *)
Definition total (d : t) : nat := fold_right Nat.add 0 (values d).
End Dict.

(** ** Tables *)

Record DataFrame : Type := {
  columns : list string;
  rows : list (list scalar)
}.

Inductive table : Type :=
| Frame (df : DataFrame)
| EmptyList.                      (* the Python list [[]] *)

Definition len (t : table) : nat :=
  match t with
  | Frame df => length (rows df)
  | EmptyList => 0
  end.

Fixpoint index_of (col : string) (cols : list string) : option nat :=
  match cols with
  | [] => None
  | c :: cols' =>
      if String.eqb col c then Some 0 else option_map S (index_of col cols')
  end.

Fixpoint traverse {A B : Type} (f : A -> outcome B) (l : list A)
  : outcome (list B) :=
  match l with
  | [] => Ok []
  | a :: l' => b <- f a ;; bs <- traverse f l' ;; Ok (b :: bs)
  end.

Definition at_index {A : Type} (l : list A) (i : nat) : outcome A :=
  match nth_error l i with
  | Some a => Ok a
  | None => Raise KeyError
  end.

(** [df[col]]: the column as a series. *)
Definition getitem (t : table) (col : string) : outcome (list scalar) :=
  match t with
  | EmptyList => Raise TypeError
  | Frame df =>
      match index_of col (columns df) with
      | None => Raise KeyError
      | Some j => traverse (fun r => at_index r j) (rows df)
      end
  end.

(** [df.loc[[row]]]: the one-row frame of a row. *)
Definition loc (t : table) (row : nat) : outcome DataFrame :=
  match t with
  | EmptyList => Raise AttributeError
  | Frame df =>
      r <- at_index (rows df) row ;;
      Ok {| columns := columns df; rows := [r] |}
  end.

(** [pd.concat(frames).reset_index(drop=True)] on frames of one header. *)
Definition concat (frames : list DataFrame) : outcome DataFrame :=
  match frames with
  | [] => Raise ValueError
  | f :: _ => Ok {| columns := columns f; rows := flat_map rows frames |}
  end.

(** [try: rows = pd.concat(rows).reset_index(drop=True)
     except ValueError: rows = []] *)
Definition concat_or_empty (frames : list DataFrame) : outcome table :=
  match concat frames with
  | Ok df => Ok (Frame df)
  | Raise ValueError => Ok EmptyList
  | Raise e => Raise e
  end.

(** ** Question *)

Module Question.
Record t : Type := {
  df : table;
  col : string;
  value : scalar
}.

Definition match_ (self : t) (example : nat) : outcome bool :=
  series <- getitem (df self) (col self) ;;
  val <- at_index series example ;;
  Ok (scalar_eqb val (value self)).
End Question.

(** ** unique_vals, class_counts, partition *)

(** [Series.unique().tolist()]: the distinct values, by first appearance. *)
Definition see (seen : list scalar) (v : scalar) : list scalar :=
  if existsb (scalar_eqb v) seen then seen else seen ++ [v].

Definition unique (series : list scalar) : list scalar :=
  fold_left see series [].

Definition unique_vals (df : table) (col : string) : outcome (list scalar) :=
  series <- getitem df col ;;
  Ok (unique series).

(** The body of the loop of [class_counts]. *)
Definition count_label (counts : Dict.t) (label : scalar) : outcome Dict.t :=
  let counts :=
    if negb (Dict.mem label counts) then Dict.set label 0 counts else counts in
  match Dict.get label counts with
  | Some c => Ok (Dict.set label (c + 1) counts)
  | None => Raise KeyError
  end.

Definition class_counts (df : table) : outcome Dict.t :=
  series <- getitem df "Model" ;;
  foldM count_label series [].

(** The body of the loop of [partition]. *)
Definition route (question : Question.t) (df : table)
    (acc : list DataFrame * list DataFrame) (row : nat)
  : outcome (list DataFrame * list DataFrame) :=
  let '(true_rows, false_rows) := acc in
  m <- Question.match_ question row ;;
  r <- loc df row ;;
  if m then Ok (true_rows ++ [r], false_rows)
  else Ok (true_rows, false_rows ++ [r]).

Definition partition (df : table) (col : string) (val : scalar)
  : outcome (table * table) :=
  let question := {| Question.df := df; Question.col := col;
                     Question.value := val |} in
  series <- getitem df col ;;
  '(true_rows, false_rows) <-
    foldM (route question df) (seq 0 (length series)) ([], []) ;;
  true_rows <- concat_or_empty true_rows ;;
  false_rows <- concat_or_empty false_rows ;;
  Ok (true_rows, false_rows).

(** ** gini, info_gain, find_best_split *)

Section Scoring.
Context {A : Arithmetic}.

(** [x / y] with [y] an int or a float made from one. *)
Definition divide (x : num) (y : nat) : outcome num :=
  if Nat.eqb y 0 then Raise ZeroDivisionError else Ok (div x (of_int y)).

(** The body of the loop of [gini]. *)
Definition subtract_label (df : table) (impurity : num)
    (entry : scalar * nat) : outcome num :=
  series <- getitem df "Model" ;;
  prob_of_lbl <- divide (of_int (snd entry)) (length series) ;;
  Ok (sub impurity (mul prob_of_lbl prob_of_lbl)).

Definition gini (df : table) : outcome num :=
  counts <- class_counts df ;;
  foldM (subtract_label df) counts (of_int 1).

(** The impurity function is a parameter of the scoring code, so that what
    the search asks of it can be stated; the program uses [gini]. *)
Variable impurity_of : table -> outcome num.

Definition info_gain_with (left right : table) (current_uncertainty : num)
  : outcome num :=
  p <- divide (of_int (len left)) (len left + len right) ;;
  gl <- impurity_of left ;;
  gr <- impurity_of right ;;
  Ok (sub (sub current_uncertainty (mul p gl)) (mul (sub (of_int 1) p) gr)).

Definition best : Type := num * option Question.t.

(** The body of the inner loop, for one value of one column. *)
Definition try_split (df : table) (current_uncertainty : num) (col : string)
    (b : best) (val : scalar) : outcome best :=
  let question := {| Question.df := df; Question.col := col;
                     Question.value := val |} in
  '(true_rows, false_rows) <- partition df col val ;;
  if Nat.eqb (len true_rows) 0 || Nat.eqb (len false_rows) 0 then Ok b
  else
    gain <- info_gain_with true_rows false_rows current_uncertainty ;;
    if ge gain (fst b) then Ok (gain, Some question) else Ok b.

Definition header (df : table) : list string :=
  match df with
  | Frame f => columns f
  | EmptyList => []
  end.

(** (The unused [n_features] of the source is left out.) *)
Definition find_best_split_with (df : table) : outcome best :=
  current_uncertainty <- impurity_of df ;;
  foldM
    (fun b col =>
       if String.eqb col "Model" then Ok b
       else
         values <- unique_vals df col ;;
         foldM (try_split df current_uncertainty col) values b)
    (header df) (of_int 0, None).
End Scoring.

Definition info_gain {A : Arithmetic} := info_gain_with gini.
Definition find_best_split {A : Arithmetic} := find_best_split_with gini.

(** ** The tree *)

Inductive node : Type :=
| Leaf (predictions : Dict.t)
| Decision_Node (question : Question.t) (true_branch false_branch : node).

Definition make_leaf (df : table) : outcome node :=
  predictions <- class_counts df ;;
  Ok (Leaf predictions).

(** [build_tree] recurses on the two sides of the chosen split; [fuel] bounds
    the depth of the recursion and [None] means it ran out. *)
Fixpoint build_tree_fuel {A : Arithmetic} (fuel : nat) (df : table)
  : option (outcome node) :=
  match fuel with
  | 0 => None
  | S fuel' =>
      match find_best_split df with
      | Raise e => Some (Raise e)
      | Ok (gain, question) =>
          if eqb gain (of_int 0) then Some (make_leaf df)
          else
            match question with
            | None => Some (Raise AttributeError)
            | Some q =>
                match partition df (Question.col q) (Question.value q) with
                | Raise e => Some (Raise e)
                | Ok (true_rows, false_rows) =>
                    match build_tree_fuel fuel' true_rows with
                    | None => None
                    | Some (Raise e) => Some (Raise e)
                    | Some (Ok true_branch) =>
                        match build_tree_fuel fuel' false_rows with
                        | None => None
                        | Some (Raise e) => Some (Raise e)
                        | Some (Ok false_branch) =>
                            Some (Ok (Decision_Node q true_branch false_branch))
                        end
                    end
                end
            end
      end
  end.

(** A table of [n] rows needs at most [n] nested calls (one for a table
    without rows). *)
Definition build_tree {A : Arithmetic} (df : table) : option (outcome node) :=
  build_tree_fuel (S (len df)) df.

(** ** Question.__repr__, print_tree and the script *)

(** [str(value)] of a cell: the digits of a number, the text of a label. *)
Definition str (v : scalar) : string :=
  match v with
  | Num z => NilZero.string_of_int (Z.to_int z)
  | Cat s => s
  end.

(** ["%s %s?" % (self.col, str(self.value))] *)
Definition Question_repr (self : Question.t) : string :=
  (Question.col self ++ " " ++ str (Question.value self) ++ "?")%string.

(** A call of [print]: with one argument, a text, or with a text and the
    predictions of a leaf. The output of the program is the list of its
    calls, in order. *)
Inductive printed : Type :=
| Print (text : string)
| PrintWith (text : string) (predictions : Dict.t).

Fixpoint print_tree (node : node) (spacing : string) : list printed :=
  match node with
  | Leaf predictions => [PrintWith (spacing ++ "Predict")%string predictions]
  | Decision_Node question true_branch false_branch =>
      [Print (spacing ++ Question_repr question)%string;
       Print (spacing ++ "--> True:")%string]
      ++ print_tree true_branch (spacing ++ "  ")%string
      ++ [Print (spacing ++ "--> False:")%string]
      ++ print_tree false_branch (spacing ++ "  ")%string
  end.

(** The last two lines of the script, for the data that [read_csv] gave:
    [tree = build_tree(data)] and [print_tree(tree)]. *)
Definition script {A : Arithmetic} (data : table)
  : option (outcome (list printed)) :=
  match build_tree data with
  | None => None
  | Some (Raise e) => Some (Raise e)
  | Some (Ok tree) => Some (Ok (print_tree tree ""))
  end.

(** * Notions used in the statements *)

(** ** Labels, frames and the sides of a split *)

Definition scalar_eq_dec (a b : scalar) : {a = b} + {a <> b}.
Proof. decide equality; [apply Z.eq_dec|apply string_dec]. Defined.

(** How often a label occurs in a series. *)
Definition count (k : scalar) (series : list scalar) : nat :=
  count_occ scalar_eq_dec series k.

(** The dict that the loop of [class_counts] builds: one more for the label
    of each row. *)
Definition bump (counts : Dict.t) (label : scalar) : Dict.t :=
  Dict.set label
    (match Dict.get label counts with Some c => c + 1 | None => 1 end) counts.

Definition tally_from (series : list scalar) (d : Dict.t) : Dict.t :=
  fold_left bump series d.

Definition tally (series : list scalar) : Dict.t := tally_from series [].

(** A frame as [read_csv] makes it: it has the label column and each row has
    one cell per column. *)
Definition wf (df : DataFrame) : Prop :=
  In "Model" (columns df) /\
  Forall (fun r => length r = length (columns df)) (rows df).

(** The cell of a row under the [j]-th column, the series of a column and
    the labels of a frame. *)
Definition cell (j : nat) (r : list scalar) : scalar := nth j r (Cat "").

Definition series_of (df : DataFrame) (col : string) : list scalar :=
  match index_of col (columns df) with
  | Some j => map (cell j) (rows df)
  | None => []
  end.

Definition labels (df : DataFrame) : list scalar := series_of df "Model".

(** The test of a question on a row. *)
Definition matches (df : DataFrame) (col : string) (val : scalar)
    (r : list scalar) : bool :=
  match index_of col (columns df) with
  | Some j => scalar_eqb (cell j r) val
  | None => false
  end.

(** What [partition] returns for a side with the rows [rs]: the list [[]]
    when there is none, a frame under the same header otherwise. *)
Definition view (cols : list string) (rs : list (list scalar)) : table :=
  match rs with
  | [] => EmptyList
  | _ :: _ => Frame {| columns := cols; rows := rs |}
  end.

Definition one_row (cols : list string) (r : list scalar) : DataFrame :=
  {| columns := cols; rows := [r] |}.

(** The frame of some of the rows of a frame. *)
Definition restrict (df : DataFrame) (keep : list scalar -> bool) : DataFrame :=
  {| columns := columns df; rows := filter keep (rows df) |}.

Definition true_side (df : DataFrame) (col : string) (val : scalar) : DataFrame :=
  restrict df (matches df col val).

Definition false_side (df : DataFrame) (col : string) (val : scalar)
  : DataFrame :=
  restrict df (fun r => negb (matches df col val r)).

(** ** The values that gini, info_gain and the search compute *)

Section Notions.
Context {A : Arithmetic}.

(** The impurity of a series of labels, as the loop of [gini] computes it,
    and the gain of two series, as [info_gain] computes it. *)
Definition square_share (total : nat) (c : nat) : num :=
  mul (div (of_int c) (of_int total)) (div (of_int c) (of_int total)).

Definition gini_of (series : list scalar) : num :=
  fold_left
    (fun impurity (e : scalar * nat) =>
       sub impurity (square_share (length series) (snd e)))
    (tally series) (of_int 1).

Definition gain_of (left right : list scalar) (cu : num) : num :=
  let p := div (of_int (length left)) (of_int (length left + length right)) in
  sub (sub cu (mul p (gini_of left))) (mul (sub (of_int 1) p) (gini_of right)).

(** The candidates (column, value) in the order of the two loops of
    [find_best_split]. *)
Definition candidates (df : DataFrame) : list (string * scalar) :=
  flat_map
    (fun col => map (pair col) (unique (series_of df col)))
    (filter (fun col => negb (String.eqb col "Model")) (columns df)).

(** A candidate is scored when neither side of its partition is empty. *)
Definition scored (df : DataFrame) (c : string * scalar) : bool :=
  negb (Nat.eqb (length (rows (true_side df (fst c) (snd c)))) 0
        || Nat.eqb (length (rows (false_side df (fst c) (snd c)))) 0).

Definition gain_at (df : DataFrame) (c : string * scalar) : num :=
  gain_of (labels (true_side df (fst c) (snd c)))
          (labels (false_side df (fst c) (snd c)))
          (gini_of (labels df)).

Definition question_of (df : DataFrame) (c : string * scalar) : Question.t :=
  {| Question.df := Frame df; Question.col := fst c;
     Question.value := snd c |}.

(** One turn of the inner loop on the tracked best. *)
Definition consider (df : DataFrame) (b : best) (c : string * scalar) : best :=
  if scored df c then
    if ge (gain_at df c) (fst b) then (gain_at df c, Some (question_of df c))
    else b
  else b.
End Notions.

(** What the arithmetic has to compute exactly for a dataset with one label:
    the share [n/n] squared, taken from 1, is 0; and a gain made of
    impurities that are all 0 is 0. *)
Record exact_on_pure (A : Arithmetic) : Prop := {
  whole_share :
    forall n, 0 < n -> sub (of_int 1) (square_share n n) = of_int 0;
  no_gain :
    forall a b, 0 < a -> 0 < b ->
      sub (sub (of_int 0) (mul (div (of_int a) (of_int (a + b))) (of_int 0)))
          (mul (sub (of_int 1) (div (of_int a) (of_int (a + b)))) (of_int 0))
      = of_int 0
}.

(** ** Trees, tables and stacked frames *)

(** The predictions of the leaves of a tree, left to right. *)
Fixpoint leaves (t : node) : list Dict.t :=
  match t with
  | Leaf predictions => [predictions]
  | Decision_Node _ true_branch false_branch =>
      leaves true_branch ++ leaves false_branch
  end.

(** The counts of all leaves of a tree, added up. *)
Definition leaf_rows (t : node) : nat :=
  fold_right Nat.add 0 (map Dict.total (leaves t)).

(** The rows of a table; the list [[]] has none. *)
Definition table_rows (t : table) : list (list scalar) :=
  match t with
  | Frame d => rows d
  | EmptyList => []
  end.

(** [interleave mask ts fs] takes the next row of [ts] where the mask says
    [true] and the next row of [fs] where it says [false]: the rows go back
    to the places they came from. *)
Fixpoint interleave {X : Type} (mask : list bool) (ts fs : list X) : list X :=
  match mask, ts, fs with
  | true :: m, t :: ts', _ => t :: interleave m ts' fs
  | false :: m, _, f :: fs' => f :: interleave m ts fs'
  | _, _, _ => []
  end.

(** The dataset of the rows of [left] followed by the rows of [right]. *)
Definition stack (left right : DataFrame) : DataFrame :=
  {| columns := columns left; rows := rows left ++ rows right |}.

(** The Decision Nodes of a tree and their questions, the depth of a tree,
    and a tree as it is printed: with the text of each question. *)
Fixpoint questions (t : node) : list Question.t :=
  match t with
  | Leaf _ => []
  | Decision_Node q true_branch false_branch =>
      q :: questions true_branch ++ questions false_branch
  end.

Fixpoint depth (t : node) : nat :=
  match t with
  | Leaf _ => 0
  | Decision_Node _ true_branch false_branch =>
      S (Nat.max (depth true_branch) (depth false_branch))
  end.

Inductive shown : Type :=
| ShownLeaf (predictions : Dict.t)
| ShownNode (text : string) (true_branch false_branch : shown).

Fixpoint show (t : node) : shown :=
  match t with
  | Leaf predictions => ShownLeaf predictions
  | Decision_Node q true_branch false_branch =>
      ShownNode (Question_repr q) (show true_branch) (show false_branch)
  end.

(** The predictions that a list of calls of [print] shows, in order. *)
Fixpoint shown_predictions (out : list printed) : list Dict.t :=
  match out with
  | [] => []
  | Print _ :: out' => shown_predictions out'
  | PrintWith _ predictions :: out' => predictions :: shown_predictions out'
  end.

(** The text of a call of [print], its first argument. *)
Definition printed_text (p : printed) : string :=
  match p with
  | Print text => text
  | PrintWith text _ => text
  end.

(** The count of a label in a dict, 0 when it is not a key. *)
Definition count_in (k : scalar) (d : Dict.t) : nat :=
  match Dict.get k d with
  | Some c => c
  | None => 0
  end.

(** ** Exact arithmetic *)

Local Open Scope Q_scope.

Definition Qsum (l : list Q) : Q := fold_right Qplus 0 l.

(** A count or a length as a rational. *)
Definition qnat (n : nat) : Q := inject_Z (Z.of_nat n).

(** The share of a label in a series, and the impurity as the specification
    writes it: 1 minus the sum, over the distinct labels, of the squared
    shares. *)
Definition share (series : list scalar) (k : scalar) : Q :=
  qnat (count k series) / qnat (length series).

Definition gini_formula (series : list scalar) : Q :=
  1 - Qsum (map (fun k => share series k * share series k)
                (nodup scalar_eq_dec series)).

(** The gain of one label: the weighted squared shares of the two sides
    minus the squared share of the whole. *)
Definition label_gain (a b l r : Q) : Q :=
  (l / (l + r)) * ((a / l) * (a / l))
  + (1 - l / (l + r)) * ((b / r) * (b / r))
  - ((a + b) / (l + r)) * ((a + b) / (l + r)).

Local Close Scope Q_scope.

(** The squares of a list of counts, added up. *)
Definition sumsq (cs : list nat) : nat :=
  fold_right (fun c s => (c * c + s)%nat) 0%nat cs.

(** ** Datasets used as examples *)

(** The four rows of the end-to-end example. *)
Definition shapes : DataFrame :=
  {| columns := ["Shape"; "Model"];
     rows := [[Cat "V"; Cat "A"]; [Cat "V"; Cat "A"];
              [Cat "U"; Cat "B"]; [Cat "U"; Cat "B"]] |}.

Definition shape_is (df : DataFrame) (v : string) : Question.t :=
  {| Question.df := Frame df; Question.col := "Shape";
     Question.value := Cat v |}.

(** Two shapes, one label. *)
Definition one_label : DataFrame :=
  {| columns := ["Shape"; "Model"];
     rows := [[Cat "V"; Cat "A"]; [Cat "U"; Cat "A"]] |}.

(** A header and no row. *)
Definition no_rows : DataFrame :=
  {| columns := ["Shape"; "Model"]; rows := [] |}.

(** Three rows, three shapes, one label. *)
Definition all_a : DataFrame :=
  {| columns := ["Shape"; "Model"];
     rows := [[Cat "V"; Cat "A"]; [Cat "U"; Cat "A"]; [Cat "W"; Cat "A"]] |}.

(** A frame with the label column only. *)
Definition of_labels (ls : list string) : DataFrame :=
  {| columns := ["Model"]; rows := map (fun s => [Cat s]) ls |}.

(** The labels [A,A,B] twice, and once. *)
Definition aab_twice : DataFrame := of_labels ["A"; "A"; "B"; "A"; "A"; "B"].

Definition aab_once : DataFrame := of_labels ["A"; "A"; "B"].

(** * Properties *)

(** ** Cells and dicts *)

Lemma scalar_eqb_eq (a b : scalar) : scalar_eqb a b = true <-> a = b.
Proof.
  destruct a as [x|x], b as [y|y]; simpl; split; intro H;
    try discriminate; try (inversion H; subst).
  - apply Z.eqb_eq in H. now subst.
  - apply Z.eqb_refl.
  - apply String.eqb_eq in H. now subst.
  - apply String.eqb_refl.
Qed.

Lemma scalar_eqb_refl (a : scalar) : scalar_eqb a a = true.
Proof. now apply scalar_eqb_eq. Qed.

Lemma scalar_eqb_neq (a b : scalar) : scalar_eqb a b = false <-> a <> b.
Proof.
  rewrite <- scalar_eqb_eq. destruct (scalar_eqb a b); split; congruence.
Qed.

Module DictFacts.
Import Dict.

Lemma get_set (k k' : scalar) (v : nat) (d : t) :
  get k (set k' v d) = if scalar_eqb k k' then Some v else get k d.
Proof.
  induction d as [|[k0 v0] d IH]; simpl.
  - reflexivity.
  - destruct (scalar_eqb k' k0) eqn:E0; simpl.
    + apply scalar_eqb_eq in E0. subst k0.
      destruct (scalar_eqb k k') eqn:E; reflexivity.
    + destruct (scalar_eqb k k0) eqn:E1.
      * apply scalar_eqb_eq in E1. subst k0.
        destruct (scalar_eqb k k') eqn:E; [|reflexivity].
        apply scalar_eqb_eq in E. subst k'.
        rewrite scalar_eqb_refl in E0. discriminate.
      * exact IH.
Qed.

Lemma set_set (k : scalar) (v v' : nat) (d : t) :
  set k v (set k v' d) = set k v d.
Proof.
  induction d as [|[k0 v0] d IH]; simpl.
  - now rewrite scalar_eqb_refl.
  - destruct (scalar_eqb k k0) eqn:E; simpl; rewrite E; [reflexivity|].
    now rewrite IH.
Qed.

Lemma keys_set (k : scalar) (v : nat) (d : t) :
  keys (set k v d) = if mem k d then keys d else keys d ++ [k].
Proof.
  unfold mem, keys. induction d as [|[k0 v0] d IH]; simpl.
  - reflexivity.
  - destruct (scalar_eqb k k0) eqn:E; simpl; [reflexivity|].
    rewrite IH. now destruct (get k d).
Qed.

Lemma get_None_keys (k : scalar) (d : t) :
  get k d = None <-> ~ In k (keys d).
Proof.
  unfold keys. induction d as [|[k0 v0] d IH]; simpl.
  - tauto.
  - destruct (scalar_eqb k k0) eqn:E.
    + apply scalar_eqb_eq in E. subst. split; [discriminate|tauto].
    + apply scalar_eqb_neq in E. rewrite IH. intuition congruence.
Qed.

Lemma total_set (k : scalar) (v : nat) (d : t) :
  total (set k v d) + match get k d with Some c => c | None => 0 end
  = total d + v.
Proof.
  unfold total, values. induction d as [|[k0 v0] d IH]; simpl.
  - lia.
  - destruct (scalar_eqb k k0) eqn:E; simpl; lia.
Qed.

Lemma in_get (k : scalar) (v : nat) (d : t) :
  NoDup (keys d) -> In (k, v) d -> get k d = Some v.
Proof.
  unfold keys. induction d as [|[k0 v0] d IH]; simpl; intros ND HI.
  - contradiction.
  - inversion ND as [|? ? Hnot ND']; subst.
    destruct HI as [HI|HI].
    + inversion HI; subst. now rewrite scalar_eqb_refl.
    + destruct (scalar_eqb k k0) eqn:E.
      * apply scalar_eqb_eq in E. subst k0. exfalso. apply Hnot.
        change k with (fst (k, v)). now apply in_map.
      * now apply IH.
Qed.
End DictFacts.

(** ** Loops that do not raise *)

Lemma foldM_pure {A S : Type} (body : S -> A -> outcome S) (f : S -> A -> S)
    (l : list A) (s : S) :
  (forall s a, In a l -> body s a = Ok (f s a)) ->
  foldM body l s = Ok (fold_left f l s).
Proof.
  revert s. induction l as [|a l IH]; intros s H; simpl.
  - reflexivity.
  - rewrite H by now left. simpl. apply IH. intros; apply H. now right.
Qed.

Lemma foldM_ext {A S : Type} (body body' : S -> A -> outcome S)
    (l : list A) (s : S) :
  (forall s a, In a l -> body s a = body' s a) ->
  foldM body l s = foldM body' l s.
Proof.
  revert s. induction l as [|a l IH]; intros s H; simpl.
  - reflexivity.
  - rewrite H by now left. destruct (body' s a); simpl; [|reflexivity].
    apply IH. intros; apply H. now right.
Qed.

Lemma traverse_pure {A B : Type} (f : A -> outcome B) (g : A -> B)
    (l : list A) :
  Forall (fun a => f a = Ok (g a)) l -> traverse f l = Ok (map g l).
Proof.
  induction 1 as [|a l Ha _ IH]; simpl.
  - reflexivity.
  - now rewrite Ha, IH.
Qed.

(** ** class_counts tallies the labels *)

Lemma count_label_bump (counts : Dict.t) (label : scalar) :
  count_label counts label = Ok (bump counts label).
Proof.
  unfold count_label, bump, Dict.mem.
  destruct (Dict.get label counts) as [c|] eqn:E; simpl.
  - now rewrite E.
  - rewrite DictFacts.get_set, scalar_eqb_refl. simpl.
    now rewrite DictFacts.set_set.
Qed.

Lemma get_bump (k label : scalar) (d : Dict.t) :
  Dict.get k (bump d label)
  = if scalar_eqb k label
    then Some (match Dict.get label d with Some c => c + 1 | None => 1 end)
    else Dict.get k d.
Proof. unfold bump. apply DictFacts.get_set. Qed.

Lemma count_cons (k a : scalar) (l : list scalar) :
  count k (a :: l) = (if scalar_eqb k a then 1 else 0) + count k l.
Proof.
  unfold count. simpl. destruct (scalar_eq_dec a k) as [->|N].
  - now rewrite scalar_eqb_refl.
  - destruct (scalar_eqb k a) eqn:E; [|reflexivity].
    apply scalar_eqb_eq in E. congruence.
Qed.

Lemma get_tally_from (k : scalar) (series : list scalar) (d : Dict.t) :
  Dict.get k (tally_from series d)
  = match count k series, Dict.get k d with
    | 0, g => g
    | n, Some c => Some (c + n)
    | n, None => Some n
    end.
Proof.
  revert d. induction series as [|a l IH]; intro d.
  - reflexivity.
  - unfold tally_from in *. simpl fold_left. rewrite IH, get_bump, count_cons.
    destruct (scalar_eqb k a) eqn:E.
    + apply scalar_eqb_eq in E. subst a. simpl.
      destruct (count k l), (Dict.get k d); f_equal; lia.
    + simpl. reflexivity.
Qed.

Lemma get_tally (k : scalar) (series : list scalar) :
  Dict.get k (tally series)
  = match count k series with 0 => None | n => Some n end.
Proof.
  unfold tally. rewrite get_tally_from. simpl. now destruct (count k series).
Qed.

Lemma keys_bump_NoDup (d : Dict.t) (label : scalar) :
  NoDup (Dict.keys d) -> NoDup (Dict.keys (bump d label)).
Proof.
  intro ND. unfold bump. rewrite DictFacts.keys_set. unfold Dict.mem.
  destruct (Dict.get label d) eqn:E; [exact ND|].
  apply DictFacts.get_None_keys in E.
  apply NoDup_app; [exact ND|repeat constructor; simpl; tauto|].
  intros x Hx [<-|[]]. exact (E Hx).
Qed.

Lemma keys_tally_NoDup (series : list scalar) : NoDup (Dict.keys (tally series)).
Proof.
  unfold tally, tally_from.
  assert (G : forall d, NoDup (Dict.keys d) ->
                NoDup (Dict.keys (fold_left bump series d))).
  { induction series as [|a l IH]; intros d ND; simpl; [exact ND|].
    apply IH. now apply keys_bump_NoDup. }
  apply G. constructor.
Qed.

Lemma total_bump (d : Dict.t) (label : scalar) :
  Dict.total (bump d label) = S (Dict.total d).
Proof.
  unfold bump. pose proof (DictFacts.total_set label
    (match Dict.get label d with Some c => c + 1 | None => 1 end) d) as H.
  destruct (Dict.get label d); lia.
Qed.

Lemma total_tally (series : list scalar) :
  Dict.total (tally series) = length series.
Proof.
  unfold tally, tally_from.
  assert (G : forall d, Dict.total (fold_left bump series d)
                        = length series + Dict.total d).
  { induction series as [|a l IH]; intro d; simpl; [reflexivity|].
    rewrite IH, total_bump. lia. }
  rewrite G. unfold Dict.total. simpl. lia.
Qed.

Lemma in_keys_tally (k : scalar) (series : list scalar) :
  In k (Dict.keys (tally series)) <-> In k series.
Proof.
  pose proof (DictFacts.get_None_keys k (tally series)) as H.
  rewrite get_tally in H. unfold count in H.
  pose proof (count_occ_In scalar_eq_dec series k) as C.
  destruct (count_occ scalar_eq_dec series k) eqn:E.
  - split; intro HI.
    + exfalso. now apply (proj1 H).
    + apply C in HI. lia.
  - split; intro HI.
    + apply C. lia.
    + destruct (in_dec scalar_eq_dec k (Dict.keys (tally series))) as [I|N];
        [exact I|]. apply H in N. discriminate.
Qed.

(** The dict of [class_counts] holds, for each of its keys, the number of
    occurrences of the key. *)
Lemma tally_entries (series : list scalar) :
  tally series = map (fun k => (k, count k series)) (Dict.keys (tally series)).
Proof.
  pose proof (keys_tally_NoDup series) as ND.
  assert (G : forall d' : Dict.t,
             (forall k v, In (k, v) d' -> v = count k series) ->
             d' = map (fun k => (k, count k series)) (Dict.keys d')).
  { induction d' as [|[k v] d' IH]; intro H; simpl; [reflexivity|].
    rewrite (H k v) by now left. f_equal. apply IH.
    intros; apply H; now right. }
  apply G. intros k v HI.
  apply DictFacts.in_get in HI; [|exact ND].
  rewrite get_tally in HI. destruct (count k series); congruence.
Qed.

Lemma tally_nonempty (series : list scalar) :
  series <> [] -> tally series <> [].
Proof.
  intros H E. pose proof (total_tally series) as T. rewrite E in T.
  destruct series; [congruence|discriminate].
Qed.

(** ** Well-formed frames and their columns *)

Lemma index_of_In (col : string) (cols : list string) :
  In col cols -> exists j, index_of col cols = Some j /\ j < length cols.
Proof.
  induction cols as [|c cols IH]; simpl; intro H; [contradiction|].
  destruct (String.eqb col c) eqn:E.
  - exists 0. split; [reflexivity|lia].
  - destruct H as [H|H].
    + subst. rewrite String.eqb_refl in E. discriminate.
    + destruct (IH H) as (j & -> & Hj). exists (S j). split; [reflexivity|lia].
Qed.

Lemma index_of_Some (col : string) (cols : list string) (j : nat) :
  index_of col cols = Some j -> In col cols.
Proof.
  revert j. induction cols as [|c cols IH]; simpl; intros j H; [discriminate|].
  destruct (String.eqb col c) eqn:E.
  - apply String.eqb_eq in E. now left.
  - destruct (index_of col cols); [|discriminate]. right. now apply (IH n).
Qed.

Lemma at_index_cell (j : nat) (r : list scalar) :
  j < length r -> at_index r j = Ok (cell j r).
Proof.
  intro H. unfold at_index, cell.
  destruct (nth_error r j) eqn:E.
  - now rewrite (nth_error_nth _ _ _ E).
  - apply nth_error_None in E. lia.
Qed.

Lemma getitem_series (df : DataFrame) (col : string) :
  Forall (fun r => length r = length (columns df)) (rows df) ->
  In col (columns df) ->
  getitem (Frame df) col = Ok (series_of df col).
Proof.
  intros W H. unfold getitem, series_of.
  destruct (index_of_In _ _ H) as (j & -> & Hj).
  apply traverse_pure. eapply Forall_impl; [|exact W].
  intros r Hr. apply at_index_cell. now rewrite Hr.
Qed.

Lemma getitem_labels (df : DataFrame) :
  wf df -> getitem (Frame df) "Model" = Ok (labels df).
Proof. intros [HM W]. now apply getitem_series. Qed.

Lemma series_of_length (df : DataFrame) (col : string) :
  In col (columns df) -> length (series_of df col) = length (rows df).
Proof.
  intro H. unfold series_of. destruct (index_of_In _ _ H) as (j & -> & _).
  apply length_map.
Qed.

Lemma labels_length (df : DataFrame) :
  wf df -> length (labels df) = length (rows df).
Proof. intros [HM _]. now apply series_of_length. Qed.

Lemma class_counts_tally (df : DataFrame) :
  wf df -> class_counts (Frame df) = Ok (tally (labels df)).
Proof.
  intro W. unfold class_counts. rewrite (getitem_labels df W). simpl.
  apply foldM_pure. intros; apply count_label_bump.
Qed.

(** ** partition is a stable filter *)

Lemma route_at (df : DataFrame) (col : string) (val : scalar)
    (pre rest : list (list scalar)) (r : list scalar)
    (tr fr : list DataFrame) :
  Forall (fun r => length r = length (columns df)) (rows df) ->
  In col (columns df) ->
  rows df = pre ++ r :: rest ->
  route {| Question.df := Frame df; Question.col := col;
           Question.value := val |} (Frame df) (tr, fr) (length pre)
  = Ok (if matches df col val r
        then (tr ++ [one_row (columns df) r], fr)
        else (tr, fr ++ [one_row (columns df) r])).
Proof.
  intros W H E.
  assert (N : nth_error (rows df) (length pre) = Some r).
  { rewrite E, nth_error_app2, Nat.sub_diag by lia. reflexivity. }
  unfold route, Question.match_, loc.
  cbn [Question.df Question.col Question.value].
  rewrite (getitem_series df col W H). cbn [bind].
  unfold series_of, matches.
  destruct (index_of_In _ _ H) as (j & -> & Hj).
  unfold at_index. rewrite nth_error_map, N. cbn.
  now destruct (scalar_eqb (cell j r) val).
Qed.

Lemma foldM_cons {A S : Type} (body : S -> A -> outcome S) (a : A)
    (l : list A) (s : S) :
  foldM body (a :: l) s = bind (body s a) (foldM body l).
Proof. reflexivity. Qed.

Lemma route_loop (df : DataFrame) (col : string) (val : scalar) :
  Forall (fun r => length r = length (columns df)) (rows df) ->
  In col (columns df) ->
  forall (rest pre : list (list scalar)) (tr fr : list DataFrame),
    rows df = pre ++ rest ->
    foldM (route {| Question.df := Frame df; Question.col := col;
                    Question.value := val |} (Frame df))
          (seq (length pre) (length rest)) (tr, fr)
    = Ok (tr ++ map (one_row (columns df)) (filter (matches df col val) rest),
          fr ++ map (one_row (columns df))
                  (filter (fun r => negb (matches df col val r)) rest)).
Proof.
  intros W H. induction rest as [|r rest IH]; intros pre tr fr E.
  - simpl. now rewrite !app_nil_r.
  - cbn [length seq filter]. rewrite foldM_cons.
    rewrite (route_at df col val pre rest r tr fr W H E). cbn [bind].
    specialize (IH (pre ++ [r])). rewrite length_app in IH. cbn [length] in IH.
    rewrite Nat.add_1_r in IH.
    destruct (matches df col val r); cbn [negb map];
      rewrite IH by (rewrite E, <- app_assoc; reflexivity);
      rewrite <- !app_assoc; reflexivity.
Qed.

Lemma concat_one_rows (cols : list string) (rs : list (list scalar)) :
  concat_or_empty (map (one_row cols) rs) = Ok (view cols rs).
Proof.
  destruct rs as [|r rs]; [reflexivity|].
  unfold concat_or_empty, concat, view. simpl. do 4 f_equal.
  induction rs as [|r' rs IH]; simpl; [reflexivity|now rewrite IH].
Qed.

Lemma partition_filter (df : DataFrame) (col : string) (val : scalar) :
  Forall (fun r => length r = length (columns df)) (rows df) ->
  In col (columns df) ->
  partition (Frame df) col val
  = Ok (view (columns df) (filter (matches df col val) (rows df)),
        view (columns df)
          (filter (fun r => negb (matches df col val r)) (rows df))).
Proof.
  intros W H. unfold partition.
  rewrite (getitem_series df col W H). cbn [bind].
  rewrite (series_of_length df col H).
  pose proof (route_loop df col val W H (rows df) [] [] [] eq_refl) as L.
  cbn [length app] in L. rewrite L. cbn [bind].
  now rewrite !concat_one_rows.
Qed.

Lemma len_view (cols : list string) (rs : list (list scalar)) :
  len (view cols rs) = length rs.
Proof. now destruct rs. Qed.

Lemma view_nonempty (cols : list string) (rs : list (list scalar)) :
  rs <> [] -> view cols rs = Frame {| columns := cols; rows := rs |}.
Proof. destruct rs; [congruence|reflexivity]. Qed.

Lemma view_frame (d : DataFrame) :
  rows d <> [] -> view (columns d) (rows d) = Frame d.
Proof. destruct d as [cols [|r rs]]; simpl; [congruence|reflexivity]. Qed.

Lemma wf_restrict (df : DataFrame) (keep : list scalar -> bool) :
  wf df -> wf (restrict df keep).
Proof.
  intros [HM W]. split; [exact HM|]. simpl.
  rewrite Forall_forall in *. intros r Hr. apply filter_In in Hr.
  now apply W.
Qed.

Lemma labels_restrict (df : DataFrame) (keep : list scalar -> bool) :
  labels (restrict df keep)
  = map snd (filter (fun p => keep (fst p)) (combine (rows df) (labels df))).
Proof.
  unfold labels, series_of, restrict. simpl.
  destruct (index_of "Model" (columns df)) as [j|].
  - induction (rows df) as [|r rs IH]; simpl; [reflexivity|].
    destruct (keep r); simpl; now rewrite IH.
  - rewrite combine_nil. reflexivity.
Qed.

Lemma sides_length (df : DataFrame) (col : string) (val : scalar) :
  length (rows (true_side df col val)) + length (rows (false_side df col val))
  = length (rows df).
Proof.
  unfold true_side, false_side, restrict. simpl.
  induction (rows df) as [|r rs IH]; simpl; [reflexivity|].
  destruct (matches df col val r); simpl; lia.
Qed.

(** ** gini and info_gain return a number *)

Section Values.
Context {A : Arithmetic}.

Lemma gini_value (df : DataFrame) :
  wf df -> gini (Frame df) = Ok (gini_of (labels df)).
Proof.
  intro W. unfold gini. rewrite (class_counts_tally df W). cbn [bind].
  apply foldM_pure. intros s e He. unfold subtract_label.
  rewrite (getitem_labels df W). cbn [bind]. unfold divide.
  destruct (length (labels df)) eqn:E.
  - apply length_zero_iff_nil in E. rewrite E in He. contradiction.
  - reflexivity.
Qed.

Lemma info_gain_value (l r : DataFrame) (cu : num) :
  wf l -> wf r -> 0 < length (rows l) ->
  info_gain (Frame l) (Frame r) cu = Ok (gain_of (labels l) (labels r) cu).
Proof.
  intros Wl Wr Hl. unfold info_gain, info_gain_with, divide.
  cbn [len]. destruct (length (rows l) + length (rows r)) eqn:E; [lia|].
  cbn [Nat.eqb bind]. rewrite (gini_value l Wl), (gini_value r Wr).
  cbn [bind]. unfold gain_of. rewrite !labels_length by assumption.
  now rewrite E.
Qed.

(** *** The search as a fold over the candidates *)

Lemma try_split_consider (df : DataFrame) (col : string) (val : scalar)
    (b : best) :
  wf df -> In col (columns df) ->
  try_split gini (Frame df) (gini_of (labels df)) col b val
  = Ok (consider df b (col, val)).
Proof.
  intros W H. unfold try_split, consider, scored.
  rewrite (partition_filter df col val (proj2 W) H). cbn [bind fst snd].
  change (view (columns df) (filter (matches df col val) (rows df)))
    with (view (columns (true_side df col val))
               (rows (true_side df col val))).
  change (view (columns df)
            (filter (fun r => negb (matches df col val r)) (rows df)))
    with (view (columns (false_side df col val))
               (rows (false_side df col val))).
  rewrite !len_view.
  pose proof (wf_restrict df (matches df col val) W) as Wt.
  pose proof (wf_restrict df (fun r => negb (matches df col val r)) W) as Wf.
  fold (true_side df col val) in Wt. fold (false_side df col val) in Wf.
  destruct (Nat.eqb_spec (length (rows (true_side df col val))) 0) as [|Nt];
    [reflexivity|].
  destruct (Nat.eqb_spec (length (rows (false_side df col val))) 0) as [|Nf];
    [reflexivity|].
  cbn [orb negb]. rewrite !view_frame by (intro E; rewrite E in *; auto).
  fold (@info_gain A).
  rewrite info_gain_value by (assumption || lia).
  cbn [bind]. unfold gain_at, question_of. cbn [fst snd].
  now destruct (ge _ (fst b)).
Qed.

Lemma find_best_split_fold (df : DataFrame) :
  wf df ->
  find_best_split (Frame df)
  = Ok (fold_left (consider df) (candidates df) (of_int 0, None)).
Proof.
  intro W. unfold find_best_split, find_best_split_with.
  rewrite (gini_value df W). cbn [bind header].
  unfold candidates.
  generalize (of_int 0, @None Question.t) as b.
  assert (G : forall cols b, incl cols (columns df) ->
    foldM
      (fun b col =>
         if String.eqb col "Model" then Ok b
         else values <- unique_vals (Frame df) col ;;
              foldM (try_split gini (Frame df) (gini_of (labels df)) col)
                    values b) cols b
    = Ok (fold_left (consider df)
            (flat_map
               (fun col => map (pair col) (unique (series_of df col)))
               (filter (fun col => negb (String.eqb col "Model")) cols)) b)).
  { induction cols as [|col cols IH]; intros b I; [reflexivity|].
    rewrite foldM_cons. cbn [filter].
    assert (Hc : In col (columns df)) by (apply I; now left).
    assert (I' : incl cols (columns df))
      by (intros x Hx; apply I; now right).
    destruct (String.eqb col "Model"); cbn [negb bind].
    - now apply IH.
    - unfold unique_vals. rewrite (getitem_series df col (proj2 W) Hc).
      cbn [bind flat_map]. rewrite fold_left_app.
      rewrite (foldM_pure _ (fun b v => consider df b (col, v)))
        by (intros; now apply try_split_consider).
      cbn [bind]. rewrite IH by assumption. do 2 f_equal.
      generalize (unique (series_of df col)) as vs. clear.
      intro vs. revert b. induction vs as [|v vs IHv]; intro b;
        [reflexivity|apply IHv]. }
  intro b. apply G. apply incl_refl.
Qed.
End Values.

(** ** unique lists every value once *)

Lemma existsb_scalar (v : scalar) (l : list scalar) :
  existsb (scalar_eqb v) l = true <-> In v l.
Proof.
  rewrite existsb_exists. split.
  - intros (x & Hx & E). apply scalar_eqb_eq in E. now subst.
  - intro H. exists v. split; [exact H|apply scalar_eqb_refl].
Qed.

Lemma in_fold_see (v : scalar) (l seen : list scalar) :
  In v (fold_left see l seen) <-> In v seen \/ In v l.
Proof.
  revert seen. induction l as [|a l IH]; intro seen; simpl.
  - tauto.
  - rewrite IH. unfold see. destruct (existsb (scalar_eqb a) seen) eqn:E.
    + apply existsb_scalar in E. intuition (subst; auto).
    + rewrite in_app_iff. simpl. intuition (subst; auto).
Qed.

Lemma NoDup_fold_see (l seen : list scalar) :
  NoDup seen -> NoDup (fold_left see l seen).
Proof.
  revert seen. induction l as [|a l IH]; intros seen ND; simpl; [exact ND|].
  apply IH. unfold see. destruct (existsb (scalar_eqb a) seen) eqn:E;
    [exact ND|].
  apply NoDup_app; [exact ND|repeat constructor; simpl; tauto|].
  intros x Hx [<-|[]]. apply existsb_scalar in Hx. congruence.
Qed.

Lemma in_unique (v : scalar) (l : list scalar) : In v (unique l) <-> In v l.
Proof.
  unfold unique. change (In v (fold_left see l []) <-> In v l).
  rewrite in_fold_see. simpl. tauto.
Qed.

Lemma NoDup_unique (l : list scalar) : NoDup (unique l).
Proof. apply (NoDup_fold_see l []). constructor. Qed.

(** ** What the search returns *)

Section Search.
Context {A : Arithmetic}.

Lemma in_candidates (df : DataFrame) (col : string) (v : scalar) :
  In (col, v) (candidates df)
  <-> In col (columns df) /\ col <> "Model" /\ In v (series_of df col).
Proof.
  unfold candidates. rewrite in_flat_map. split.
  - intros (c & Hc & Hv). apply filter_In in Hc. destruct Hc as [Hc Hn].
    apply in_map_iff in Hv. destruct Hv as (x & E & Hx).
    inversion E; subst. apply (proj1 (in_unique _ _)) in Hx.
    split; [exact Hc|split; [|exact Hx]].
    intros ->. rewrite String.eqb_refl in Hn. discriminate.
  - intros (Hc & Hn & Hv). exists col. split.
    + apply filter_In. split; [exact Hc|].
      destruct (String.eqb_spec col "Model"); [contradiction|reflexivity].
    + apply in_map. now apply in_unique.
Qed.

(** The fold either keeps its start or ends on the last candidate that
    replaced the tracked best; no scored candidate after it reaches its
    gain. *)
Lemma fold_consider_last (df : DataFrame) (cs : list (string * scalar))
    (b : best) :
  (fold_left (consider df) cs b = b /\
   forall c, In c cs -> scored df c = true ->
             ge (gain_at df c) (fst b) = false)
  \/
  (exists l1 c l2,
      cs = l1 ++ c :: l2 /\
      scored df c = true /\
      ge (gain_at df c) (fst (fold_left (consider df) l1 b)) = true /\
      fold_left (consider df) cs b = (gain_at df c, Some (question_of df c)) /\
      forall c', In c' l2 -> scored df c' = true ->
                 ge (gain_at df c') (gain_at df c) = false).
Proof.
  revert b. induction cs as [|c0 cs IH]; intro b.
  - left. split; [reflexivity|intros c []].
  - cbn [fold_left]. destruct (IH (consider df b c0)) as
        [[E N]|(l1 & c & l2 & E & S & G & R & N)].
    + unfold consider in E, N |- *.
      destruct (scored df c0) eqn:S0;
        [destruct (ge (gain_at df c0) (fst b)) eqn:G0|].
      * right. exists [], c0, cs. repeat split; auto.
      * left. split; [exact E|]. intros c [<-|Hc] Sc; auto.
      * left. split; [exact E|]. intros c [<-|Hc] Sc; [congruence|auto].
    + right. exists (c0 :: l1), c, l2. subst cs. repeat split; auto.
Qed.

(** The returned pair: no question with the gain 0 it started with, or the
    question and the gain of a scored candidate. *)
Lemma fold_consider_result (df : DataFrame) (cs : list (string * scalar)) :
  let b := fold_left (consider df) cs (of_int 0, None) in
  (snd b = None /\ fst b = of_int 0) \/
  (exists c, In c cs /\ scored df c = true /\
             b = (gain_at df c, Some (question_of df c))).
Proof.
  intro b. subst b.
  destruct (fold_consider_last df cs (of_int 0, None)) as
      [[E _]|(l1 & c & l2 & E & S & _ & R & _)].
  - left. now rewrite E.
  - right. exists c. subst cs. repeat split; auto.
    apply in_or_app. right. now left.
Qed.

Lemma scored_sides (df : DataFrame) (c : string * scalar) :
  scored df c = true ->
  0 < length (rows (true_side df (fst c) (snd c))) < length (rows df) /\
  0 < length (rows (false_side df (fst c) (snd c))) < length (rows df).
Proof.
  unfold scored. intro S. apply negb_true_iff, orb_false_iff in S.
  destruct S as [S1 S2]. apply Nat.eqb_neq in S1, S2.
  pose proof (sides_length df (fst c) (snd c)). lia.
Qed.

Lemma partition_sides (df : DataFrame) (c : string * scalar) :
  wf df -> In c (candidates df) -> scored df c = true ->
  partition (Frame df) (fst c) (snd c)
  = Ok (Frame (true_side df (fst c) (snd c)),
        Frame (false_side df (fst c) (snd c))).
Proof.
  intros W Hc S. destruct c as [col v].
  apply in_candidates in Hc. destruct Hc as (Hc & _ & _).
  cbn [fst snd]. rewrite (partition_filter df col v (proj2 W) Hc).
  destruct (scored_sides df (col, v) S) as [[P1 _] [P2 _]].
  cbn [fst snd] in P1, P2.
  change (view (columns df) (filter (matches df col v) (rows df)))
    with (view (columns (true_side df col v)) (rows (true_side df col v))).
  change (view (columns df)
            (filter (fun r => negb (matches df col v r)) (rows df)))
    with (view (columns (false_side df col v))
               (rows (false_side df col v))).
  rewrite !view_frame; [reflexivity| |]; intro E; rewrite E in *;
    simpl in *; lia.
Qed.
End Search.

(** ** build_tree *)

Lemma leaf_rows_node (q : Question.t) (a b : node) :
  leaf_rows (Decision_Node q a b) = leaf_rows a + leaf_rows b.
Proof.
  unfold leaf_rows. simpl. rewrite map_app.
  induction (map Dict.total (leaves a)) as [|x l IH]; simpl; lia.
Qed.

Section Build.
Context {A : Arithmetic}.

Lemma find_best_split_result (df : DataFrame) :
  wf df ->
  exists g q,
    find_best_split (Frame df) = Ok (g, q) /\
    ((q = None /\ g = of_int 0) \/
     (exists c, In c (candidates df) /\ scored df c = true /\
                g = gain_at df c /\ q = Some (question_of df c))).
Proof.
  intro W. rewrite (find_best_split_fold df W).
  pose proof (fold_consider_result df (candidates df)) as R. cbv zeta in R.
  destruct (fold_left (consider df) (candidates df) (of_int 0, None))
    as [g q] eqn:E.
  exists g, q. split; [reflexivity|].
  destruct R as [[Hq Hg]|(c & Hc & S & Eb)].
  - left. now split.
  - right. exists c. inversion Eb. now repeat split.
Qed.

Lemma make_leaf_tally (df : DataFrame) :
  wf df -> make_leaf (Frame df) = Ok (Leaf (tally (labels df))).
Proof. intro W. unfold make_leaf. now rewrite (class_counts_tally df W). Qed.

Lemma build_tree_fuel_total (n : nat) :
  forall df : DataFrame,
    wf df -> 0 < length (rows df) <= n ->
    exists tree,
      (forall fuel, n <= fuel ->
                    build_tree_fuel fuel (Frame df) = Some (Ok tree)) /\
      Forall (fun predictions => predictions <> []) (leaves tree) /\
      leaf_rows tree = length (rows df).
Proof.
  induction n as [|n IH]; intros df W Hn; [lia|].
  destruct (find_best_split_result df W) as (g & q & E & R).
  destruct (eqb g (of_int 0)) eqn:Z.
  - exists (Leaf (tally (labels df))). split; [|split].
    + intros [|fuel] Hf; [lia|]. cbn [build_tree_fuel].
      now rewrite E, Z, (make_leaf_tally df W).
    + constructor; [|constructor]. apply tally_nonempty.
      intro N. pose proof (labels_length df W) as L. rewrite N in L.
      simpl in L. lia.
    + unfold leaf_rows. simpl. rewrite total_tally, (labels_length df W). lia.
  - destruct R as [[Hq Hg]|(c & Hc & S & Hg & Hq)].
    { subst g. rewrite eqb_zero in Z. discriminate. }
    destruct (scored_sides df c S) as [P1 P2].
    destruct (IH (true_side df (fst c) (snd c))) as (tt & Ft & Lt & Rt);
      [now apply wf_restrict|lia|].
    destruct (IH (false_side df (fst c) (snd c))) as (tf & Ff & Lf & Rf);
      [now apply wf_restrict|lia|].
    exists (Decision_Node (question_of df c) tt tf). split; [|split].
    + intros [|fuel] Hf; [lia|]. cbn [build_tree_fuel].
      rewrite E, Z, Hq. cbn [question_of Question.col Question.value].
      rewrite (partition_sides df c W Hc S).
      rewrite Ft, Ff by lia. reflexivity.
    + simpl. apply Forall_app. now split.
    + rewrite leaf_rows_node, Rt, Rf. apply sides_length.
Qed.
End Build.

(** ** gini does not divide by zero *)

Lemma traverse_at_index_raise (j : nat) (l : list (list scalar)) (e : exn) :
  traverse (fun r => at_index r j) l = Raise e -> e = KeyError.
Proof.
  induction l as [|r l IH]; simpl; [discriminate|].
  unfold at_index at 1. destruct (nth_error r j); simpl.
  - destruct (traverse (fun r => at_index r j) l); simpl; [discriminate|].
    intro H. inversion H; subst. now apply IH.
  - intro H. now inversion H.
Qed.

Lemma getitem_raise (t : table) (col : string) (e : exn) :
  getitem t col = Raise e -> e = KeyError \/ e = TypeError.
Proof.
  destruct t as [df|]; simpl.
  - destruct (index_of col (columns df)).
    + intro H. left. exact (traverse_at_index_raise _ _ _ H).
    + intro H. left. now inversion H.
  - intro H. right. now inversion H.
Qed.

Section Safe.
Context {A : Arithmetic}.

Lemma gini_of_series (t : table) (series : list scalar) :
  getitem t "Model" = Ok series -> gini t = Ok (gini_of series).
Proof.
  intro G. unfold gini, class_counts. rewrite G. cbn [bind].
  rewrite (foldM_pure count_label bump)
    by (intros; apply count_label_bump).
  cbn [bind]. apply foldM_pure. intros s e He. unfold subtract_label.
  rewrite G. cbn [bind]. unfold divide.
  destruct (length series) eqn:E; [|reflexivity].
  apply length_zero_iff_nil in E. subst series. contradiction.
Qed.

Lemma gini_outcome (t : table) :
  (exists g, gini t = Ok g) \/ gini t = Raise KeyError
  \/ gini t = Raise TypeError.
Proof.
  destruct (getitem t "Model") as [series|e] eqn:G.
  - left. exists (gini_of series). now apply gini_of_series.
  - right. unfold gini, class_counts. rewrite G. cbn [bind].
    destruct (getitem_raise _ _ _ G); subst; auto.
Qed.

Lemma find_best_split_with_ext (impurity_of : table -> outcome num)
    (df : table) :
  0 < len df ->
  (forall t, 0 < len t -> impurity_of t = gini t) ->
  find_best_split_with impurity_of df = find_best_split df.
Proof.
  intros Hd Hi. unfold find_best_split, find_best_split_with.
  rewrite (Hi df Hd). destruct (gini df) as [cu|e]; [|reflexivity].
  cbn [bind]. apply foldM_ext. intros b col _.
  destruct (String.eqb col "Model"); [reflexivity|].
  destruct (unique_vals df col) as [values|e]; [|reflexivity].
  cbn [bind]. apply foldM_ext. intros b' val _.
  unfold try_split. destruct (partition df col val) as [[t f]|e];
    [|reflexivity].
  cbn [bind]. destruct (Nat.eqb_spec (len t) 0) as [|Nt]; [reflexivity|].
  destruct (Nat.eqb_spec (len f) 0) as [|Nf]; [reflexivity|].
  cbn [orb]. unfold info_gain_with.
  now rewrite (Hi t), (Hi f) by lia.
Qed.
End Safe.

(** ** Exact arithmetic: the value of gini *)

Local Open Scope Q_scope.

Lemma Qsum_cons (x : Q) (l : list Q) : Qsum (x :: l) = x + Qsum l.
Proof. reflexivity. Qed.

Lemma Qsum_perm (l l' : list Q) : Permutation l l' -> Qsum l == Qsum l'.
Proof.
  induction 1; simpl.
  - reflexivity.
  - now rewrite IHPermutation.
  - ring.
  - now rewrite IHPermutation1.
Qed.

Lemma Qsum_app (l l' : list Q) : Qsum (l ++ l') == Qsum l + Qsum l'.
Proof.
  induction l as [|x l IH]; simpl.
  - ring.
  - rewrite IH. ring.
Qed.

Lemma Qsum_ext {X : Type} (f g : X -> Q) (l : list X) :
  (forall x, In x l -> f x == g x) -> Qsum (map f l) == Qsum (map g l).
Proof.
  induction l as [|x l IH]; intro H; simpl.
  - reflexivity.
  - rewrite (H x) by now left. rewrite IH; [reflexivity|].
    intros; apply H; now right.
Qed.

Lemma Qsum_nonneg (l : list Q) : Forall (fun x => 0 <= x) l -> 0 <= Qsum l.
Proof.
  induction 1 as [|x l Hx _ IH]; simpl.
  - apply Qle_refl.
  - lra.
Qed.

Lemma Qsum_zero (l : list Q) : Forall (fun x => x == 0) l -> Qsum l == 0.
Proof.
  induction 1 as [|x l Hx _ IH]; simpl.
  - reflexivity.
  - rewrite Hx, IH. ring.
Qed.

Lemma qnat_plus (a b : nat) : qnat (a + b) == qnat a + qnat b.
Proof. unfold qnat. now rewrite Nat2Z.inj_add, inject_Z_plus. Qed.

Lemma qnat_pos (n : nat) : (0 < n)%nat -> 0 < qnat n.
Proof.
  intro H. unfold qnat. change 0 with (inject_Z 0). rewrite <- Zlt_Qlt. lia.
Qed.

Lemma qnat_nonneg (n : nat) : 0 <= qnat n.
Proof.
  unfold qnat. change 0 with (inject_Z 0). rewrite <- Zle_Qle. lia.
Qed.

(** The loop of [gini] subtracts the squared shares of the dict's entries. *)
Lemma gini_of_exact_sum (series : list scalar) :
  gini_of (A := exact) series
  == 1 - Qsum (map (fun e : scalar * nat =>
                      (qnat (snd e) / qnat (length series))
                      * (qnat (snd e) / qnat (length series)))
                   (tally series)).
Proof.
  unfold gini_of. change (of_int (Arithmetic := exact) 1) with 1.
  generalize (tally series) as d. generalize 1 as imp.
  intros imp d. revert imp. induction d as [|e d IH]; intro imp.
  - simpl. ring.
  - cbn [fold_left map]. rewrite IH, Qsum_cons. unfold square_share.
    cbn [sub mul div of_int exact]. rewrite !Qred_correct.
    fold (qnat (snd e)). fold (qnat (length series)). ring.
Qed.

Lemma keys_tally_perm (series : list scalar) :
  Permutation (Dict.keys (tally series)) (nodup scalar_eq_dec series).
Proof.
  apply NoDup_Permutation.
  - apply keys_tally_NoDup.
  - apply NoDup_nodup.
  - intro k. rewrite in_keys_tally, nodup_In. tauto.
Qed.

Lemma gini_of_exact (series : list scalar) :
  gini_of (A := exact) series == gini_formula series.
Proof.
  rewrite gini_of_exact_sum. unfold gini_formula.
  rewrite (tally_entries series) at 1. rewrite map_map. cbn [snd].
  apply Qplus_comp; [reflexivity|]. apply Qopp_comp.
  apply Qsum_perm, Permutation_map, keys_tally_perm.
Qed.

Lemma sumsq_le (cs : list nat) :
  (sumsq cs <= fold_right Nat.add 0 cs * fold_right Nat.add 0 cs)%nat.
Proof. induction cs as [|c cs IH]; simpl; nia. Qed.

Lemma sumsq_pos (cs : list nat) :
  (0 < fold_right Nat.add 0 cs)%nat -> (0 < sumsq cs)%nat.
Proof.
  induction cs as [|c cs IH]; simpl; intro H; [lia|].
  destruct c; simpl in *; [apply IH|]; lia.
Qed.

Lemma qnat_mult (a b : nat) : qnat (a * b) == qnat a * qnat b.
Proof. unfold qnat. now rewrite Nat2Z.inj_mul, inject_Z_mult. Qed.

Lemma qnat_le (a b : nat) : (a <= b)%nat -> qnat a <= qnat b.
Proof. intro H. unfold qnat. rewrite <- Zle_Qle. lia. Qed.

Lemma qnat_neq0 (n : nat) : (0 < n)%nat -> ~ qnat n == 0.
Proof. intros H E. apply qnat_pos in H. rewrite E in H. lra. Qed.

Lemma squares_sum (n : nat) (d : Dict.t) :
  (0 < n)%nat ->
  Qsum (map (fun e : scalar * nat =>
               (qnat (snd e) / qnat n) * (qnat (snd e) / qnat n)) d)
  == qnat (sumsq (Dict.values d)) / (qnat n * qnat n).
Proof.
  intro Hn. pose proof (qnat_neq0 n Hn) as N.
  induction d as [|[k c] d IH].
  - change (0 == 0 / (qnat n * qnat n)). field. exact N.
  - change (Dict.values ((k, c) :: d)) with (c :: Dict.values d).
    change (sumsq (c :: Dict.values d))
      with (c * c + sumsq (Dict.values d))%nat.
    cbn [map snd]. rewrite Qsum_cons, IH, qnat_plus, qnat_mult.
    field. exact N.
Qed.

Lemma gini_of_exact_values (series : list scalar) :
  series <> [] ->
  gini_of (A := exact) series
  == 1 - qnat (sumsq (Dict.values (tally series)))
         / (qnat (length series) * qnat (length series)).
Proof.
  intro H. rewrite gini_of_exact_sum, squares_sum; [reflexivity|].
  destruct series; [congruence|simpl; lia].
Qed.

Lemma gini_of_exact_range (series : list scalar) :
  series <> [] ->
  0 <= gini_of (A := exact) series /\ gini_of (A := exact) series < 1.
Proof.
  intro H. rewrite (gini_of_exact_values series H).
  assert (Hn : (0 < length series)%nat)
    by (destruct series; [congruence|simpl; lia]).
  pose proof (total_tally series) as T. unfold Dict.total in T.
  pose proof (sumsq_le (Dict.values (tally series))) as L.
  pose proof (sumsq_pos (Dict.values (tally series))) as P.
  rewrite T in L, P. specialize (P Hn).
  set (s := sumsq (Dict.values (tally series))) in *.
  set (n := length series) in *.
  pose proof (qnat_pos n Hn) as Qn.
  assert (Qnn : 0 < qnat n * qnat n) by nra.
  assert (U : qnat s / (qnat n * qnat n) <= 1).
  { apply Qle_shift_div_r; [exact Qnn|].
    rewrite <- qnat_mult, Qmult_1_l. now apply qnat_le. }
  assert (V : 0 < qnat s / (qnat n * qnat n)).
  { apply Qlt_shift_div_l; [exact Qnn|].
    rewrite Qmult_0_l. now apply qnat_pos. }
  split; lra.
Qed.

Local Close Scope Q_scope.

(** ** A dataset with one label *)

Lemma tally_from_pure (l : scalar) (series : list scalar) :
  Forall (eq l) series ->
  forall c, tally_from series [(l, c)] = [(l, c + length series)].
Proof.
  induction 1 as [|a series Ha _ IH]; intro c; simpl.
  - now rewrite Nat.add_0_r.
  - subst a. unfold tally_from in *. unfold bump at 2. simpl.
    rewrite scalar_eqb_refl, IH. do 2 f_equal. lia.
Qed.

Lemma tally_pure (l : scalar) (series : list scalar) :
  Forall (eq l) series -> series <> [] ->
  tally series = [(l, length series)].
Proof.
  intros H N. destruct series as [|a series]; [congruence|].
  inversion H as [|? ? Ha H']; subst.
  unfold tally, tally_from. simpl.
  change (fold_left bump series (bump [] a))
    with (tally_from series [(a, 1)]).
  now rewrite tally_from_pure.
Qed.

Lemma in_labels_restrict (df : DataFrame) (keep : list scalar -> bool)
    (x : scalar) :
  In x (labels (restrict df keep)) -> In x (labels df).
Proof.
  rewrite labels_restrict. intro H. apply in_map_iff in H.
  destruct H as ([r y] & E & H). simpl in E. subst y.
  apply filter_In in H. destruct H as [H _].
  now apply in_combine_r in H.
Qed.

Lemma exact_on_pure_exact : exact_on_pure exact.
Proof.
  split.
  - intros n Hn. unfold square_share. cbn [sub mul div of_int exact].
    change (inject_Z (Z.of_nat 0)) with (Qred 0).
    apply Qred_complete. rewrite !Qred_correct.
    fold (qnat n). change (inject_Z (Z.of_nat 1)) with 1%Q.
    field. now apply qnat_neq0.
  - intros a b Ha Hb. cbn [sub mul div of_int exact].
    change (inject_Z (Z.of_nat 0)) with (Qred 0).
    apply Qred_complete. rewrite !Qred_correct.
    change (Qred 0) with 0%Q. fold (qnat a). fold (qnat (a + b)).
    field. apply qnat_neq0. lia.
Qed.

Section Pure.
Context {A : Arithmetic}.
Hypothesis laws : exact_on_pure A.

Lemma gini_of_pure (l : scalar) (series : list scalar) :
  Forall (eq l) series -> series <> [] -> gini_of series = of_int 0.
Proof.
  intros H N. unfold gini_of. rewrite (tally_pure l series H N). simpl.
  apply (whole_share A laws). destruct series; [congruence|simpl; lia].
Qed.

Lemma gain_at_pure (df : DataFrame) (l : scalar) (c : string * scalar) :
  Forall (eq l) (labels df) -> wf df -> scored df c = true ->
  gain_at df c = of_int 0.
Proof.
  intros H W S. destruct (scored_sides df c S) as [[P1 _] [P2 _]].
  assert (Sub : forall keep, Forall (eq l) (labels (restrict df keep))).
  { intro keep. rewrite Forall_forall in *. intros x Hx.
    apply H. now apply in_labels_restrict in Hx. }
  assert (Wt := wf_restrict df (matches df (fst c) (snd c)) W).
  assert (Wf := wf_restrict df
                  (fun r => negb (matches df (fst c) (snd c) r)) W).
  pose proof (labels_length _ Wt) as Lt.
  pose proof (labels_length _ Wf) as Lf.
  pose proof (labels_length _ W) as L.
  fold (true_side df (fst c) (snd c)) in Lt.
  fold (false_side df (fst c) (snd c)) in Lf.
  pose proof (sides_length df (fst c) (snd c)) as SL.
  unfold gain_at, gain_of.
  rewrite !(gini_of_pure l); try apply Sub; try assumption;
    try (intro E; rewrite E in *; simpl in *; lia).
  apply (no_gain A laws); lia.
Qed.

Lemma fold_consider_pure (df : DataFrame) (cs : list (string * scalar))
    (b : best) :
  (forall c, scored df c = true -> gain_at df c = of_int 0) ->
  fst b = of_int 0 -> fst (fold_left (consider df) cs b) = of_int 0.
Proof.
  intro G. revert b. induction cs as [|c cs IH]; intros b Hb; [exact Hb|].
  simpl. apply IH. unfold consider.
  destruct (scored df c) eqn:S; [|exact Hb].
  destruct (ge (gain_at df c) (fst b)); [|exact Hb].
  simpl. now apply G.
Qed.

Lemma build_tree_pure (df : DataFrame) (l : scalar) :
  wf df -> 0 < length (rows df) -> Forall (eq l) (labels df) ->
  forall fuel, 0 < fuel ->
    build_tree_fuel fuel (Frame df)
    = Some (Ok (Leaf [(l, length (rows df))])).
Proof.
  intros W Hn H [|fuel] Hf; [lia|]. cbn [build_tree_fuel].
  rewrite (find_best_split_fold df W).
  pose proof (fold_consider_pure df (candidates df) (of_int 0, None)
                (fun c => gain_at_pure df l c H W) eq_refl) as G.
  destruct (fold_left (consider df) (candidates df) (of_int 0, None))
    as [g q].
  simpl in G. subst g. rewrite eqb_zero, (make_leaf_tally df W).
  rewrite (tally_pure l (labels df) H), (labels_length df W); [reflexivity|].
  intro E. pose proof (labels_length df W) as L. rewrite E in L.
  simpl in L. lia.
Qed.
End Pure.

(** ** Exact arithmetic: the gain of a split *)

Local Open Scope Q_scope.

(** A sum over distinct keys may leave out the keys whose term is 0. *)
Lemma Qsum_support (f : scalar -> Q) (K : list scalar) :
  forall K' : list scalar,
    NoDup K -> NoDup K' -> incl K' K ->
    (forall k, In k K -> ~ In k K' -> f k == 0) ->
    Qsum (map f K) == Qsum (map f K').
Proof.
  induction K as [|a K IH]; intros K' ND ND' I Z.
  - destruct K' as [|x K']; [reflexivity|].
    exfalso. apply (I x). now left.
  - inversion ND as [|? ? Ha NDK]; subst.
    destruct (in_dec scalar_eq_dec a K') as [Hin|Hout].
    + destruct (in_split _ _ Hin) as (l1 & l2 & ->).
      pose proof (NoDup_remove_1 _ _ _ ND') as ND1.
      pose proof (NoDup_remove_2 _ _ _ ND') as ND2.
      rewrite (Qsum_perm _ _ (Permutation_map f
                 (Permutation_sym (Permutation_middle l1 l2 a)))).
      cbn [map]. rewrite !Qsum_cons.
      rewrite (IH (l1 ++ l2)); [reflexivity|assumption|assumption| |].
      * intros x Hx.
        assert (Hx' : In x (l1 ++ a :: l2)).
        { apply in_app_or in Hx. apply in_or_app. simpl. tauto. }
        destruct (I x Hx') as [<-|HK]; [contradiction|exact HK].
      * intros k Hk Hn. apply Z; [now right|].
        intro Hk'. apply in_app_or in Hk'. simpl in Hk'.
        destruct Hk' as [H1|[<-|H2]].
        -- apply Hn, in_or_app. now left.
        -- contradiction.
        -- apply Hn, in_or_app. now right.
    + cbn [map]. rewrite Qsum_cons, (Z a) by (now left || assumption).
      rewrite (IH K'); [ring|assumption|assumption| |].
      * intros x Hx. destruct (I x Hx) as [<-|HK]; [contradiction|exact HK].
      * intros k Hk Hn. apply Z; [now right|assumption].
Qed.

Lemma share_absent (series : list scalar) (k : scalar) :
  ~ In k series -> share series k == 0.
Proof.
  intro H. unfold share, count.
  rewrite (proj1 (count_occ_not_In scalar_eq_dec series k) H).
  change (qnat 0) with 0. unfold Qdiv. ring.
Qed.

Lemma gini_formula_over (series K : list scalar) :
  NoDup K -> incl series K ->
  gini_formula series
  == 1 - Qsum (map (fun k => share series k * share series k) K).
Proof.
  intros ND I. unfold gini_formula.
  rewrite (Qsum_support (fun k => share series k * share series k) K
             (nodup scalar_eq_dec series)).
  - reflexivity.
  - exact ND.
  - apply NoDup_nodup.
  - intros x Hx. apply nodup_In in Hx. now apply I.
  - intros k _ Hk. rewrite nodup_In in Hk.
    rewrite (share_absent series k Hk). ring.
Qed.

Lemma label_gain_square (a b l r : Q) :
  0 < l -> 0 < r ->
  label_gain a b l r
  == ((a * r - b * l) * (a * r - b * l)) / ((l + r) * (l + r) * l * r).
Proof.
  intros Hl Hr. unfold label_gain. field.
  repeat split; lra.
Qed.

Lemma Qsquare_nonneg (x : Q) : 0 <= x * x.
Proof.
  destruct (Qlt_le_dec x 0) as [N|P].
  - setoid_replace (x * x) with ((- x) * (- x)) by ring.
    apply Qmult_le_0_compat; lra.
  - now apply Qmult_le_0_compat.
Qed.

Lemma label_gain_nonneg (a b l r : Q) :
  0 < l -> 0 < r -> 0 <= label_gain a b l r.
Proof.
  intros Hl Hr. rewrite (label_gain_square a b l r Hl Hr).
  assert (D : 0 < (l + r) * (l + r) * l * r).
  { assert (0 < l + r) by lra.
    repeat apply Qmult_lt_0_compat; assumption. }
  apply Qle_shift_div_l; [exact D|]. rewrite Qmult_0_l.
  apply Qsquare_nonneg.
Qed.

Lemma label_gain_zero (a b l r : Q) :
  0 < l -> 0 < r -> a * r == b * l -> label_gain a b l r == 0.
Proof.
  intros Hl Hr E. rewrite (label_gain_square a b l r Hl Hr), E.
  field. repeat split; lra.
Qed.

Lemma Qsum_combine (p : Q) (fa fb fp : scalar -> Q) (K : list scalar) :
  Qsum (map (fun k => p * fa k + (1 - p) * fb k - fp k) K)
  == p * Qsum (map fa K) + (1 - p) * Qsum (map fb K) - Qsum (map fp K).
Proof.
  induction K as [|k K IH]; cbn [map].
  - change (Qsum []) with 0. ring.
  - rewrite !Qsum_cons, IH. ring.
Qed.

Lemma share_app (left right : list scalar) (k : scalar) :
  share (left ++ right) k
  == (qnat (count k left) + qnat (count k right))
     / (qnat (length left) + qnat (length right)).
Proof.
  unfold share, count. rewrite count_occ_app, length_app, !qnat_plus.
  reflexivity.
Qed.

(** The gain that the code computes, as a sum of the gains of the labels. *)
Lemma gain_of_exact (left right : list scalar) :
  left <> [] -> right <> [] ->
  gain_of (A := exact) left right (gini_of (A := exact) (left ++ right))
  == Qsum (map (fun k => label_gain (qnat (count k left))
                                    (qnat (count k right))
                                    (qnat (length left))
                                    (qnat (length right)))
               (nodup scalar_eq_dec (left ++ right))).
Proof.
  intros Nl Nr. unfold gain_of. cbn [sub mul div of_int exact].
  rewrite !Qred_correct. rewrite !gini_of_exact.
  set (K := nodup scalar_eq_dec (left ++ right)).
  assert (NDK : NoDup K) by apply NoDup_nodup.
  assert (IK : incl (left ++ right) K)
    by (intros x Hx; now apply nodup_In).
  rewrite (gini_formula_over (left ++ right) K NDK IK).
  rewrite (gini_formula_over left K NDK)
    by (intros x Hx; apply IK, in_or_app; now left).
  rewrite (gini_formula_over right K NDK)
    by (intros x Hx; apply IK, in_or_app; now right).
  fold (qnat (length left)). fold (qnat (length left + length right)).
  change (inject_Z (Z.of_nat 1)) with 1.
  rewrite (Qsum_ext
             (fun k => label_gain (qnat (count k left)) (qnat (count k right))
                         (qnat (length left)) (qnat (length right)))
             (fun k => (qnat (length left) / qnat (length left + length right))
                       * (share left k * share left k)
                       + (1 - qnat (length left)
                              / qnat (length left + length right))
                         * (share right k * share right k)
                       - share (left ++ right) k * share (left ++ right) k)).
  - rewrite Qsum_combine. ring.
  - intros k _. unfold label_gain. rewrite share_app, qnat_plus.
    unfold share. reflexivity.
Qed.

Local Close Scope Q_scope.

(** ** Rows of a table, and merging two sides back *)

Lemma interleave_filter {X : Type} (p : X -> bool) (l : list X) :
  interleave (map p l) (filter p l) (filter (fun x => negb (p x)) l) = l.
Proof.
  induction l as [|x l IH]; simpl; [reflexivity|].
  destruct (p x); simpl; now rewrite IH.
Qed.

Lemma table_rows_view (cols : list string) (rs : list (list scalar)) :
  table_rows (view cols rs) = rs.
Proof. now destruct rs. Qed.

Lemma match_at (df : DataFrame) (col : string) (val : scalar) (i : nat)
    (r : list scalar) :
  Forall (fun r => length r = length (columns df)) (rows df) ->
  In col (columns df) ->
  nth_error (rows df) i = Some r ->
  Question.match_ {| Question.df := Frame df; Question.col := col;
                     Question.value := val |} i
  = Ok (matches df col val r).
Proof.
  intros W H N. unfold Question.match_.
  cbn [Question.df Question.col Question.value].
  rewrite (getitem_series df col W H). cbn [bind].
  unfold series_of, matches.
  destruct (index_of_In _ _ H) as (j & -> & Hj).
  unfold at_index. now rewrite nth_error_map, N.
Qed.

Lemma NoDup_pairs (f : string -> list scalar) (cols : list string) :
  NoDup cols -> (forall c, NoDup (f c)) ->
  NoDup (flat_map (fun c => map (pair c) (f c)) cols).
Proof.
  intros ND Hf. induction ND as [|c cols Hc ND IH]; simpl; [constructor|].
  apply NoDup_app.
  - specialize (Hf c). induction Hf as [|v vs Hv _ IHv]; simpl; constructor.
    + intro H. apply in_map_iff in H. destruct H as (x & E & Hx).
      inversion E; subst. contradiction.
    + exact IHv.
  - exact IH.
  - intros [c' v] H1 H2. apply in_map_iff in H1.
    destruct H1 as (x & E & _). inversion E; subst.
    apply in_flat_map in H2. destruct H2 as (c2 & Hc2 & H2).
    apply in_map_iff in H2. destruct H2 as (y & E2 & _).
    inversion E2; subst. contradiction.
Qed.

Lemma NoDup_candidates (df : DataFrame) :
  NoDup (columns df) -> NoDup (candidates df).
Proof.
  intro ND. unfold candidates.
  apply (NoDup_pairs (fun col => unique (series_of df col))).
  - now apply NoDup_filter.
  - intro c. apply NoDup_unique.
Qed.

(** * The claims *)

(** ** The example datasets are well formed *)

Lemma wf_shapes : wf shapes.
Proof. split; [simpl; auto|repeat constructor]. Qed.

Lemma wf_one_label : wf one_label.
Proof. split; [simpl; auto|repeat constructor]. Qed.

Lemma wf_of_labels (ls : list string) : wf (of_labels ls).
Proof.
  split; [simpl; auto|]. simpl. apply Forall_forall. intros r H.
  apply in_map_iff in H. now destruct H as (s & <- & _).
Qed.

(** ** C1 *)

(** C1, as the specification has it, fails: on the four rows with Shape
    [V,V,U,U] and Model [A,A,B,B] the best gain that [find_best_split]
    returns is not 1.0. *)
Lemma shapes_gain_is_not_one :
  ~ exists q, find_best_split (A := binary64) (Frame shapes) = Ok (1%float, q).
Proof.
  intros [q H].
  apply (f_equal (fun o => match o with
                           | Ok (g, _) => PrimFloat.eqb g 1%float
                           | Raise _ => true
                           end)) in H.
  vm_compute in H. discriminate.
Qed.

(** C1, amended: on that dataset [find_best_split] returns the gain 0.5 (the
    impurity 0.5 of the whole minus the impurity 0 of both sides) with the
    question Shape == U, the later of the two tied candidates, and
    [build_tree] returns a Decision Node whose true branch is the Leaf {B: 2}
    and whose false branch is the Leaf {A: 2}; in doubles and in exact
    arithmetic alike. *)
Theorem shapes_end_to_end :
  find_best_split (A := binary64) (Frame shapes)
  = Ok (0.5%float, Some (shape_is shapes "U"))
  /\ find_best_split (A := exact) (Frame shapes)
     = Ok ((1 # 2)%Q, Some (shape_is shapes "U"))
  /\ build_tree (A := binary64) (Frame shapes)
     = Some (Ok (Decision_Node (shape_is shapes "U")
                   (Leaf [(Cat "B", 2)]) (Leaf [(Cat "A", 2)])))
  /\ build_tree (A := exact) (Frame shapes)
     = Some (Ok (Decision_Node (shape_is shapes "U")
                   (Leaf [(Cat "B", 2)]) (Leaf [(Cat "A", 2)]))).
Proof. repeat split; vm_compute; reflexivity. Qed.

(** ** C2 *)




(** ** C3 *)




(** ** C4 *)



(** ** C5 *)



(** ** C6 *)



(** ** C7 *)



(** ** C8 *)

Lemma wf_stack (left right : DataFrame) :
  wf left -> wf right -> columns right = columns left -> wf (stack left right).
Proof.
  intros [Ml Wl] [Mr Wr] E. split; [exact Ml|]. simpl.
  apply Forall_app. split; [exact Wl|]. now rewrite <- E.
Qed.

Lemma labels_stack (left right : DataFrame) :
  columns right = columns left ->
  labels (stack left right) = labels left ++ labels right.
Proof.
  intro E. unfold labels, series_of, stack. simpl. rewrite E.
  destruct (index_of "Model" (columns left)); [apply map_app|reflexivity].
Qed.

(** The doubles on the way, for the sides [A,A,B,A,A,B] and [A,A,B]: the
    three impurities are 0.4444444444444445, the weight of the left side is
    0.6666666666666666, and 0.4444444444444445 - 0.2962962962962963
    - 0.14814814814814817 leaves 2^-55. *)
Example info_gain_rounding_steps :
  gini (A := binary64) (Frame (stack aab_twice aab_once))
  = Ok 0x1.c71c71c71c71dp-2%float /\
  gini (A := binary64) (Frame aab_twice) = Ok 0x1.c71c71c71c71dp-2%float /\
  gini (A := binary64) (Frame aab_once) = Ok 0x1.c71c71c71c71dp-2%float /\
  divide (A := binary64) (float_of_nat 6) (6 + 3)
  = Ok 0x1.5555555555555p-1%float /\
  PrimFloat.mul 0x1.5555555555555p-1 0x1.c71c71c71c71dp-2
  = 0x1.2f684bda12f68p-2%float /\
  PrimFloat.mul (PrimFloat.sub 1 0x1.5555555555555p-1) 0x1.c71c71c71c71dp-2
  = 0x1.2f684bda12f69p-3%float /\
  PrimFloat.sub
    (PrimFloat.sub 0x1.c71c71c71c71dp-2 0x1.2f684bda12f68p-2)
    0x1.2f684bda12f69p-3
  = 0x1p-55%float.
Proof. repeat split; vm_compute; reflexivity. Qed.




(** ** C9 *)

Lemma wf_all_a : wf all_a.
Proof. split; [simpl; auto|repeat constructor]. Qed.



(** In doubles the tree of that dataset is the same single Leaf. *)
Example build_tree_all_a_binary64 :
  build_tree (A := binary64) (Frame all_a) = Some (Ok (Leaf [(Cat "A", 3)])).
Proof. vm_compute. reflexivity. Qed.

(** ** C10 *)



(** * More of the code *)

(** ** class_counts and unique_vals *)

Lemma keys_bump (d : Dict.t) (label : scalar) :
  Dict.keys (bump d label) = see (Dict.keys d) label.
Proof.
  unfold bump, see. rewrite DictFacts.keys_set. unfold Dict.mem.
  destruct (Dict.get label d) eqn:E.
  - assert (H : In label (Dict.keys d)).
    { destruct (in_dec scalar_eq_dec label (Dict.keys d)) as [I|N]; [exact I|].
      apply DictFacts.get_None_keys in N. congruence. }
    apply existsb_scalar in H. now rewrite H.
  - apply DictFacts.get_None_keys in E.
    destruct (existsb (scalar_eqb label) (Dict.keys d)) eqn:X; [|reflexivity].
    apply existsb_scalar in X. contradiction.
Qed.

Lemma keys_tally_unique (series : list scalar) :
  Dict.keys (tally series) = unique series.
Proof.
  unfold tally, tally_from, unique.
  assert (G : forall d, Dict.keys (fold_left bump series d)
                        = fold_left see series (Dict.keys d)).
  { induction series as [|a l IH]; intro d; simpl; [reflexivity|].
    now rewrite IH, keys_bump. }
  apply (G []).
Qed.



(** ** Tables that are refused *)

Lemma index_of_None (col : string) (cols : list string) :
  ~ In col cols -> index_of col cols = None.
Proof.
  intro H. destruct (index_of col cols) as [j|] eqn:E; [|reflexivity].
  exfalso. apply H. now apply (index_of_Some col cols j).
Qed.

Lemma getitem_missing (df : DataFrame) (col : string) :
  ~ In col (columns df) -> getitem (Frame df) col = Raise KeyError.
Proof. intro H. unfold getitem. now rewrite index_of_None. Qed.

(** X2: a frame without the label column is refused with a KeyError by
    [class_counts], [gini], [find_best_split] and [build_tree]; the list that
    [partition] returns for an empty side is refused with a TypeError by all
    of them, by [unique_vals] and by [partition] itself. *)
Theorem tables_refused {A : Arithmetic} :
  (forall df : DataFrame,
      ~ In "Model" (columns df) ->
      class_counts (Frame df) = Raise KeyError /\
      gini (Frame df) = Raise KeyError /\
      find_best_split (Frame df) = Raise KeyError /\
      build_tree (Frame df) = Some (Raise KeyError)) /\
  class_counts EmptyList = Raise TypeError /\
  gini EmptyList = Raise TypeError /\
  find_best_split EmptyList = Raise TypeError /\
  build_tree EmptyList = Some (Raise TypeError) /\
  (forall col, unique_vals EmptyList col = Raise TypeError) /\
  (forall col val, partition EmptyList col val = Raise TypeError).
Proof.
  split; [|repeat split].
  intros df H.
  assert (C : class_counts (Frame df) = Raise KeyError).
  { unfold class_counts. now rewrite (getitem_missing df "Model" H). }
  assert (G : gini (Frame df) = Raise KeyError).
  { unfold gini. now rewrite C. }
  assert (F : find_best_split (Frame df) = Raise KeyError).
  { unfold find_best_split, find_best_split_with. now rewrite G. }
  repeat split; try assumption.
  unfold build_tree. cbn [build_tree_fuel]. now rewrite F.
Qed.

Lemma tables_refused_witness :
  ~ In "Model" (columns (Build_DataFrame ["Shape"] [[Cat "V"]])) /\
  build_tree (A := binary64) (Frame (Build_DataFrame ["Shape"] [[Cat "V"]]))
  = Some (Raise KeyError).
Proof.
  assert (H : ~ In "Model" (columns (Build_DataFrame ["Shape"] [[Cat "V"]]))).
  { simpl. intros [E|[]]. discriminate. }
  split; [exact H|].
  exact (proj2 (proj2 (proj2
    (proj1 (tables_refused (A := binary64)) _ H)))).
Defined.

(** ** partition on its edges *)

(** X3: [partition], [unique_vals] and [Question.match] on a column that the
    frame does not have raise a KeyError; so does [Question.match] on a
    column that the frame has, for a row index past the last row. *)
Theorem column_and_row_lookups (df : DataFrame) (col : string) (val : scalar) :
  (~ In col (columns df) ->
   partition (Frame df) col val = Raise KeyError /\
   unique_vals (Frame df) col = Raise KeyError /\
   forall example,
     Question.match_ {| Question.df := Frame df; Question.col := col;
                        Question.value := val |} example = Raise KeyError) /\
  (wf df -> In col (columns df) ->
   forall example, length (rows df) <= example ->
     Question.match_ {| Question.df := Frame df; Question.col := col;
                        Question.value := val |} example = Raise KeyError).
Proof.
  split.
  - intro H. pose proof (getitem_missing df col H) as G.
    split; [unfold partition; now rewrite G|].
    split; [unfold unique_vals; now rewrite G|].
    intro example. unfold Question.match_. cbn [Question.df Question.col].
    now rewrite G.
  - intros W H example Hi. unfold Question.match_.
    cbn [Question.df Question.col].
    rewrite (getitem_series df col (proj2 W) H). cbn [bind].
    unfold at_index.
    rewrite (proj2 (nth_error_None (series_of df col) example))
      by (now rewrite series_of_length).
    reflexivity.
Qed.

Lemma column_and_row_lookups_witness :
  wf shapes /\ In "Shape" (columns shapes) /\ length (rows shapes) <= 4 /\
  Question.match_ (shape_is shapes "V") 4 = Raise KeyError /\
  partition (Frame shapes) "Size" (Cat "V") = Raise KeyError.
Proof.
  assert (I : In "Shape" (columns shapes)) by (simpl; auto).
  assert (L : length (rows shapes) <= 4) by (simpl; lia).
  assert (N : ~ In "Size" (columns shapes)).
  { simpl. intros [E|[E|[]]]; discriminate. }
  split; [exact wf_shapes|]. split; [exact I|]. split; [exact L|].
  split.
  - exact (proj2 (column_and_row_lookups shapes "Shape" (Cat "V"))
             wf_shapes I 4 L).
  - exact (proj1 (proj1 (column_and_row_lookups shapes "Size" (Cat "V")) N)).
Defined.

Lemma filter_all {X : Type} (p : X -> bool) (l : list X) :
  (forall x, In x l -> p x = true) -> filter p l = l.
Proof.
  induction l as [|x l IH]; intro H; simpl; [reflexivity|].
  rewrite (H x) by now left. f_equal. apply IH. intros; apply H. now right.
Qed.

Lemma filter_none {X : Type} (p : X -> bool) (l : list X) :
  (forall x, In x l -> p x = false) -> filter p l = [].
Proof.
  induction l as [|x l IH]; intro H; simpl; [reflexivity|].
  rewrite (H x) by now left. apply IH. intros; apply H. now right.
Qed.

Lemma matches_cell (df : DataFrame) (col : string) (val : scalar)
    (r : list scalar) :
  In col (columns df) -> In r (rows df) ->
  exists v, In v (series_of df col) /\ matches df col val r = scalar_eqb v val.
Proof.
  intros H Hr. unfold matches, series_of.
  destruct (index_of_In _ _ H) as (j & -> & _).
  exists (cell j r). split; [now apply in_map|reflexivity].
Qed.



Lemma filter_filter_same {X : Type} (p : X -> bool) (l : list X) :
  filter p (filter p l) = filter p l.
Proof. apply filter_all. intros x H. now apply filter_In in H. Qed.

Lemma filter_filter_negb {X : Type} (p q : X -> bool) (l : list X) :
  (forall x, q x = negb (p x)) -> filter q (filter p l) = [].
Proof.
  intro E. apply filter_none. intros x H. apply filter_In in H.
  rewrite E. now rewrite (proj2 H).
Qed.



(** ** gini and info_gain in exact arithmetic *)

Lemma labels_perm (df df' : DataFrame) :
  columns df' = columns df -> Permutation (rows df) (rows df') ->
  Permutation (labels df) (labels df').
Proof.
  intros E P. unfold labels, series_of. rewrite E.
  destruct (index_of "Model" (columns df)); [|constructor].
  now apply Permutation_map.
Qed.

Lemma count_perm (k : scalar) (l l' : list scalar) :
  Permutation l l' -> count k l = count k l'.
Proof.
  intro P. unfold count.
  exact (proj1 (Permutation_count_occ scalar_eq_dec l l') P k).
Qed.

Lemma gini_formula_perm (l l' : list scalar) :
  Permutation l l' -> (gini_formula l == gini_formula l')%Q.
Proof.
  intro P. unfold gini_formula.
  apply Qplus_comp; [reflexivity|]. apply Qopp_comp.
  rewrite (Qsum_perm _ _
             (Permutation_map (fun k => (share l k * share l k)%Q)
                (NoDup_Permutation (NoDup_nodup scalar_eq_dec l)
                   (NoDup_nodup scalar_eq_dec l')
                   (fun k => conj
                      (fun H => proj2 (nodup_In scalar_eq_dec l' k)
                         (Permutation_in k P
                            (proj1 (nodup_In scalar_eq_dec l k) H)))
                      (fun H => proj2 (nodup_In scalar_eq_dec l k)
                         (Permutation_in k (Permutation_sym P)
                            (proj1 (nodup_In scalar_eq_dec l' k) H))))))).
  apply Qsum_ext. intros k _. unfold share.
  now rewrite (count_perm k l l' P), (Permutation_length P).
Qed.

(** The rationals that [gini] returns are in lowest terms. *)
Lemma gini_of_exact_reduced (series : list scalar) :
  Qred (gini_of (A := exact) series) = gini_of (A := exact) series.
Proof.
  unfold gini_of.
  assert (G : forall (d : Dict.t) (x : Q),
             Qred x = x ->
             Qred (fold_left
                     (fun impurity (e : scalar * nat) =>
                        sub (Arithmetic := exact) impurity
                          (square_share (length series) (snd e))) d x)
             = fold_left
                 (fun impurity (e : scalar * nat) =>
                    sub (Arithmetic := exact) impurity
                      (square_share (length series) (snd e))) d x).
  { induction d as [|e d IH]; intros x Hx; [exact Hx|].
    cbn [fold_left]. apply IH. cbn [sub exact].
    apply Qred_complete, Qred_correct. }
  apply G. reflexivity.
Qed.

(** X6: in exact arithmetic [gini] does not depend on the order of the rows:
    two datasets with the same header whose rows are a permutation of each
    other have the same impurity. *)
Theorem gini_row_order (df df' : DataFrame) :
  wf df -> columns df' = columns df -> Permutation (rows df) (rows df') ->
  gini (A := exact) (Frame df') = gini (A := exact) (Frame df).
Proof.
  intros W E P.
  assert (W' : wf df').
  { destruct W as [M F]. split; [now rewrite E|].
    rewrite E. rewrite Forall_forall in *. intros r Hr.
    apply F. now apply (Permutation_in r (Permutation_sym P)). }
  rewrite (@gini_value exact df W), (@gini_value exact df' W').
  f_equal. rewrite <- (gini_of_exact_reduced (labels df)).
  rewrite <- (gini_of_exact_reduced (labels df')).
  apply Qred_complete. rewrite !gini_of_exact.
  apply gini_formula_perm, Permutation_sym. now apply labels_perm.
Qed.

Lemma gini_row_order_witness :
  wf (of_labels ["A"; "B"; "B"; "C"; "C"; "C"]) /\
  Permutation (rows (of_labels ["A"; "B"; "B"; "C"; "C"; "C"]))
              (rows (of_labels ["C"; "C"; "C"; "B"; "B"; "A"])) /\
  gini (A := exact) (Frame (of_labels ["C"; "C"; "C"; "B"; "B"; "A"]))
  = gini (A := exact) (Frame (of_labels ["A"; "B"; "B"; "C"; "C"; "C"])).
Proof.
  assert (P : Permutation (rows (of_labels ["A"; "B"; "B"; "C"; "C"; "C"]))
                (rows (of_labels ["C"; "C"; "C"; "B"; "B"; "A"]))).
  { simpl. apply Permutation_rev. }
  split; [apply wf_of_labels|]. split; [exact P|].
  exact (gini_row_order (of_labels ["A"; "B"; "B"; "C"; "C"; "C"])
           (of_labels ["C"; "C"; "C"; "B"; "B"; "A"])
           (wf_of_labels _) eq_refl P).
Defined.

(** In doubles the order of the rows matters: the labels are subtracted in
    the order of their first appearance. *)
Example gini_row_order_binary64 :
  gini (A := binary64) (Frame (of_labels ["A"; "B"; "B"; "C"; "C"; "C"]))
  = Ok 0x1.38e38e38e38e4p-1%float /\
  gini (A := binary64) (Frame (of_labels ["C"; "C"; "C"; "B"; "B"; "A"]))
  = Ok 0x1.38e38e38e38e3p-1%float.
Proof. split; vm_compute; reflexivity. Qed.

Lemma twice_mean_le (cs : list nat) (c : nat) :
  2 * c * fold_right Nat.add 0 cs <= sumsq cs + length cs * (c * c).
Proof.
  induction cs as [|x cs IH]; simpl; [lia|].
  assert (H : 2 * c * x <= x * x + c * c).
  { destruct (Nat.le_ge_cases x c) as [L|L].
    - pose proof (Nat.mul_le_mono _ _ _ _ L L).
      replace c with (x + (c - x)) by lia. nia.
    - replace x with (c + (x - c)) by lia. nia. }
  nia.
Qed.

Lemma square_of_sum_le (cs : list nat) :
  fold_right Nat.add 0 cs * fold_right Nat.add 0 cs <= length cs * sumsq cs.
Proof.
  induction cs as [|x cs IH]; simpl; [lia|].
  pose proof (twice_mean_le cs x). nia.
Qed.

Lemma values_tally (series : list scalar) :
  Dict.values (tally series)
  = map (fun k => count k series) (Dict.keys (tally series)).
Proof.
  rewrite (tally_entries series) at 1. unfold Dict.values.
  rewrite map_map. reflexivity.
Qed.

Lemma sumsq_const (c : nat) (cs : list nat) :
  Forall (eq c) cs ->
  sumsq cs = length cs * (c * c) /\ fold_right Nat.add 0 cs = length cs * c.
Proof.
  induction 1 as [|x cs Hx _ [IH1 IH2]]; simpl; [lia|]. subst x. lia.
Qed.



(** X8: in exact arithmetic [info_gain] does not depend on which of the two
    sides is passed first. *)
Theorem info_gain_symmetric (left right : DataFrame) (cu : Q) :
  wf left -> wf right ->
  0 < length (rows left) -> 0 < length (rows right) ->
  info_gain (A := exact) (Frame left) (Frame right) cu
  = info_gain (A := exact) (Frame right) (Frame left) cu.
Proof.
  intros Wl Wr Hl Hr.
  rewrite (@info_gain_value exact left right cu Wl Wr Hl).
  rewrite (@info_gain_value exact right left cu Wr Wl Hr).
  f_equal. unfold gain_of. cbn [sub mul div of_int exact].
  apply Qred_complete. rewrite !Qred_correct.
  rewrite (labels_length left Wl), (labels_length right Wr).
  rewrite (Nat.add_comm (length (rows right))).
  fold (qnat (length (rows left))). fold (qnat (length (rows right))).
  fold (qnat (length (rows left) + length (rows right))).
  rewrite qnat_plus. change (inject_Z (Z.of_nat 1)) with 1%Q.
  pose proof (qnat_pos _ Hl). pose proof (qnat_pos _ Hr).
  field. lra.
Qed.

Lemma info_gain_symmetric_witness :
  wf aab_twice /\ wf aab_once /\
  0 < length (rows aab_twice) /\ 0 < length (rows aab_once) /\
  info_gain (A := exact) (Frame aab_twice) (Frame aab_once) (1 # 3)%Q
  = info_gain (A := exact) (Frame aab_once) (Frame aab_twice) (1 # 3)%Q.
Proof.
  assert (N2 : 0 < length (rows aab_twice)) by (simpl; lia).
  assert (N1 : 0 < length (rows aab_once)) by (simpl; lia).
  split; [apply wf_of_labels|]. split; [apply wf_of_labels|].
  split; [exact N2|]. split; [exact N1|].
  exact (info_gain_symmetric aab_twice aab_once (1 # 3)%Q
           (wf_of_labels _) (wf_of_labels _) N2 N1).
Defined.



(** X10: [info_gain] is where a division by zero can happen: with two sides
    that have no rows it raises a ZeroDivisionError. With one side the empty
    list and the other a non-empty dataset it raises the TypeError of [gini]
    on the list. *)
Theorem info_gain_errors {A : Arithmetic} :
  (forall (left right : table) (cu : num),
      len left + len right = 0 ->
      info_gain left right cu = Raise ZeroDivisionError) /\
  (forall (df : DataFrame) (cu : num),
      wf df -> 0 < length (rows df) ->
      info_gain (Frame df) EmptyList cu = Raise TypeError /\
      info_gain EmptyList (Frame df) cu = Raise TypeError).
Proof.
  split.
  - intros left right cu H. unfold info_gain, info_gain_with, divide.
    now rewrite H.
  - intros df cu W Hn. unfold info_gain, info_gain_with, divide.
    cbn [len]. rewrite Nat.add_0_r. cbn [Nat.add].
    destruct (Nat.eqb_spec (length (rows df)) 0) as [E|_]; [lia|].
    cbn [bind]. rewrite (gini_value df W). split; reflexivity.
Qed.

Lemma info_gain_errors_witness :
  len EmptyList + len (Frame no_rows) = 0 /\
  info_gain (A := binary64) EmptyList (Frame no_rows) 0.5%float
  = Raise ZeroDivisionError /\
  wf shapes /\ 0 < length (rows shapes) /\
  info_gain (A := binary64) (Frame shapes) EmptyList 0.5%float
  = Raise TypeError.
Proof.
  assert (Z : len EmptyList + len (Frame no_rows) = 0) by reflexivity.
  assert (N : 0 < length (rows shapes)) by (simpl; lia).
  destruct (info_gain_errors (A := binary64)) as [H1 H2].
  split; [exact Z|]. split; [exact (H1 _ _ _ Z)|].
  split; [exact wf_shapes|]. split; [exact N|].
  exact (proj1 (H2 shapes 0.5%float wf_shapes N)).
Defined.

(** ** find_best_split when nothing can be split, and its maximum *)

Lemma fold_consider_unscored {A : Arithmetic} (df : DataFrame)
    (cs : list (string * scalar)) (b : best) :
  (forall c, In c cs -> scored df c = false) ->
  fold_left (consider df) cs b = b.
Proof.
  revert b. induction cs as [|c cs IH]; intros b H; [reflexivity|].
  cbn [fold_left]. unfold consider at 2. rewrite (H c) by now left.
  apply IH. intros; apply H. now right.
Qed.

Lemma constant_column_unscored {A : Arithmetic} (df : DataFrame)
    (c : string * scalar) :
  In c (candidates df) ->
  (exists v, Forall (eq v) (series_of df (fst c))) ->
  scored df c = false.
Proof.
  intros Hc [v Hv]. destruct c as [col v']. cbn [fst] in Hv.
  apply in_candidates in Hc. destruct Hc as (Hcol & _ & Hv').
  rewrite Forall_forall in Hv. pose proof (Hv v' Hv') as E. subst v'.
  unfold scored. cbn [fst snd].
  replace (rows (false_side df col v)) with (@nil (list scalar)).
  - cbn [length Nat.eqb]. now rewrite orb_true_r.
  - symmetry. unfold false_side, restrict. cbn [rows].
    apply filter_none. intros r Hr.
    destruct (matches_cell df col v r Hcol Hr) as (x & Hx & ->).
    rewrite <- (Hv x Hx). now rewrite scalar_eqb_refl.
Qed.

Lemma few_rows_constant (df : DataFrame) (col : string) :
  length (rows df) <= 1 -> exists v, Forall (eq v) (series_of df col).
Proof.
  intro H. unfold series_of. destruct (index_of col (columns df)) as [j|].
  - destruct (rows df) as [|r [|r' rs]]; simpl in *.
    + exists (Cat ""). constructor.
    + exists (cell j r). repeat constructor.
    + lia.
  - exists (Cat ""). constructor.
Qed.



Lemma fold_consider_max (df : DataFrame) (cs : list (string * scalar))
    (b : best (A := exact)) :
  (fst b <= fst (fold_left (consider (A := exact) df) cs b))%Q /\
  forall c, In c cs -> scored df c = true ->
    (gain_at (A := exact) df c
     <= fst (fold_left (consider (A := exact) df) cs b))%Q.
Proof.
  revert b. induction cs as [|c0 cs IH]; intro b.
  - split; [apply Qle_refl|intros c []].
  - cbn [fold_left]. destruct (IH (consider df b c0)) as [I1 I2].
    assert (S : (fst b <= fst (consider (A := exact) df b c0))%Q /\
                (scored df c0 = true ->
                 (gain_at (A := exact) df c0
                  <= fst (consider (A := exact) df b c0))%Q)).
    { unfold consider. destruct (scored df c0); [|split; [apply Qle_refl|]].
      - cbn [ge exact].
        destruct (Qle_bool (fst b) (gain_at (A := exact) df c0)) eqn:E.
        + apply Qle_bool_iff in E. split; [exact E|intros _; apply Qle_refl].
        + split; [apply Qle_refl|]. intros _.
          destruct (Qlt_le_dec (fst b) (gain_at (A := exact) df c0))
            as [L|L];
            [|exact L].
          apply Qlt_le_weak, Qle_bool_iff in L. congruence.
      - discriminate. }
    destruct S as [S1 S2]. split.
    + eapply Qle_trans; eassumption.
    + intros c [<-|Hc] Sc.
      * eapply Qle_trans; [now apply S2|exact I1].
      * now apply I2.
Qed.



(** ** The tree that build_tree returns *)

(** Induction on the calls of [build_tree]: what holds of the Leaf of every
    non-empty dataset, and of a Decision Node when it holds of the trees of
    the two sides, holds of the tree that is returned. *)
Lemma build_tree_fuel_inv {A : Arithmetic} (P : DataFrame -> node -> Prop) :
  (forall df, wf df -> 0 < length (rows df) ->
              P df (Leaf (tally (labels df)))) ->
  (forall df c tt tf,
      wf df -> In c (candidates df) -> scored df c = true ->
      P (true_side df (fst c) (snd c)) tt ->
      P (false_side df (fst c) (snd c)) tf ->
      P df (Decision_Node (question_of df c) tt tf)) ->
  forall n df,
    wf df -> 0 < length (rows df) <= n ->
    exists tree,
      (forall fuel, n <= fuel ->
                    build_tree_fuel fuel (Frame df) = Some (Ok tree)) /\
      P df tree.
Proof.
  intros PL PN. induction n as [|n IH]; intros df W Hn; [lia|].
  destruct (find_best_split_result df W) as (g & q & E & R).
  destruct (eqb g (of_int 0)) eqn:Z.
  - exists (Leaf (tally (labels df))). split; [|apply PL; [exact W|lia]].
    intros [|fuel] Hf; [lia|]. cbn [build_tree_fuel].
    now rewrite E, Z, (make_leaf_tally df W).
  - destruct R as [[Hq Hg]|(c & Hc & S & Hg & Hq)].
    { subst g. rewrite eqb_zero in Z. discriminate. }
    destruct (scored_sides df c S) as [P1 P2].
    destruct (IH (true_side df (fst c) (snd c))) as (tt & Ft & Pt);
      [now apply wf_restrict|lia|].
    destruct (IH (false_side df (fst c) (snd c))) as (tf & Ff & Pf);
      [now apply wf_restrict|lia|].
    exists (Decision_Node (question_of df c) tt tf).
    split; [|now apply PN].
    intros [|fuel] Hf; [lia|]. cbn [build_tree_fuel].
    rewrite E, Z, Hq. cbn [question_of Question.col Question.value].
    rewrite (partition_sides df c W Hc S).
    rewrite Ft, Ff by lia. reflexivity.
Qed.

Lemma build_tree_inv {A : Arithmetic} (P : DataFrame -> node -> Prop) :
  (forall df, wf df -> 0 < length (rows df) ->
              P df (Leaf (tally (labels df)))) ->
  (forall df c tt tf,
      wf df -> In c (candidates df) -> scored df c = true ->
      P (true_side df (fst c) (snd c)) tt ->
      P (false_side df (fst c) (snd c)) tf ->
      P df (Decision_Node (question_of df c) tt tf)) ->
  forall df,
    wf df -> 0 < length (rows df) ->
    exists tree, build_tree (Frame df) = Some (Ok tree) /\ P df tree.
Proof.
  intros PL PN df W Hn.
  destruct (build_tree_fuel_inv P PL PN (length (rows df)) df W
              (conj Hn (le_n _))) as (tree & F & Pt).
  exists tree. split; [|exact Pt]. unfold build_tree. apply F. simpl. lia.
Qed.

Lemma count_restrict (df : DataFrame) (keep : list scalar -> bool)
    (k : scalar) :
  count k (labels (restrict df keep))
  + count k (labels (restrict df (fun r => negb (keep r))))
  = count k (labels df).
Proof.
  unfold labels, series_of, restrict. cbn [columns rows].
  destruct (index_of "Model" (columns df)) as [j|]; [|reflexivity].
  induction (rows df) as [|r rs IH]; [reflexivity|].
  cbn [filter map]. destruct (keep r); cbn [negb map];
    rewrite !count_cons; lia.
Qed.

(** The count of a label over the leaves of a tree. *)
Lemma count_in_tally (k : scalar) (series : list scalar) :
  count_in k (tally series) = count k series.
Proof.
  unfold count_in. rewrite get_tally. now destruct (count k series).
Qed.



Lemma in_series_restrict (df : DataFrame) (keep : list scalar -> bool)
    (col : string) (v : scalar) :
  In v (series_of (restrict df keep) col) -> In v (series_of df col).
Proof.
  unfold series_of, restrict. cbn [columns rows].
  destruct (index_of col (columns df)) as [j|]; [|tauto].
  intro H. apply in_map_iff in H. destruct H as (r & <- & Hr).
  apply filter_In in Hr. apply in_map. tauto.
Qed.



(** ** print_tree and the script *)

Lemma string_app_assoc (a b c : string) :
  ((a ++ b) ++ c)%string = (a ++ (b ++ c))%string.
Proof. induction a as [|x a IH]; simpl; [reflexivity|now rewrite IH]. Qed.

Lemma string_app_inj (s a b : string) :
  (s ++ a)%string = (s ++ b)%string -> a = b.
Proof.
  induction s as [|x s IH]; simpl; intro H; [exact H|].
  inversion H. now apply IH.
Qed.

Lemma prefix_app (s x : string) : String.prefix s (s ++ x)%string = true.
Proof.
  induction s as [|a s IH]; simpl; [now destruct x|].
  destruct (Ascii.ascii_dec a a); [exact IH|congruence].
Qed.

Lemma prefix_shorter (s a t : string) :
  String.prefix (s ++ a)%string t = true -> String.prefix s t = true.
Proof.
  revert t. induction s as [|x s IH]; intros t H; [now destruct t|].
  destruct t as [|y t]; simpl in *; [discriminate|].
  destruct (Ascii.ascii_dec x y); [now apply IH|discriminate].
Qed.

Lemma print_tree_counts (tree : node) (spacing : string) :
  length (print_tree tree spacing)
  = 3 * length (questions tree) + length (leaves tree) /\
  shown_predictions (print_tree tree spacing) = leaves tree /\
  Forall (fun p => String.prefix spacing (printed_text p) = true)
         (print_tree tree spacing).
Proof.
  revert spacing. induction tree as [p|q tb IHt fb IHf]; intro spacing.
  - cbn. split; [reflexivity|]. split; [reflexivity|].
    constructor; [apply prefix_app|constructor].
  - destruct (IHt (spacing ++ "  ")%string) as (Lt & St & Ft).
    destruct (IHf (spacing ++ "  ")%string) as (Lf & Sf & Ff).
    assert (G : forall l l', shown_predictions (l ++ l')
                             = shown_predictions l ++ shown_predictions l').
    { induction l as [|[t|t d] l IH]; intro l'; simpl;
        [reflexivity|apply IH|now rewrite IH]. }
    cbn [print_tree questions leaves].
    split; [|split].
    + cbn [length app]. rewrite !length_app. cbn [length].
      rewrite Lt, Lf. lia.
    + cbn [app shown_predictions]. rewrite G. cbn [app shown_predictions].
      now rewrite St, Sf.
    + cbn [app]. apply Forall_cons; [apply prefix_app|].
      apply Forall_cons; [apply prefix_app|].
      apply Forall_app. split.
      * eapply Forall_impl; [|exact Ft]. intros p H.
        now apply prefix_shorter in H.
      * apply Forall_cons; [apply prefix_app|].
        eapply Forall_impl; [|exact Ff]. intros p H.
        now apply prefix_shorter in H.
Qed.

(** X15: [print_tree] makes three calls of [print] for every Decision Node
    and one for every Leaf; the calls for the Leaves carry their
    predictions, in the order of the Leaves from the true side to the false
    side; and every printed text starts with the spacing that was passed. *)
Theorem print_tree_calls (tree : node) (spacing : string) :
  length (print_tree tree spacing)
  = 3 * length (questions tree) + length (leaves tree) /\
  shown_predictions (print_tree tree spacing) = leaves tree /\
  Forall (fun p => String.prefix spacing (printed_text p) = true)
         (print_tree tree spacing).
Proof. apply print_tree_counts. Qed.

Lemma print_tree_parse (t1 : node) :
  forall (t2 : node) (spacing : string) (r1 r2 : list printed),
    print_tree t1 spacing ++ r1 = print_tree t2 spacing ++ r2 ->
    show t1 = show t2 /\ r1 = r2.
Proof.
  induction t1 as [p1|q1 tb1 IHt fb1 IHf]; intros [p2|q2 tb2 fb2] spacing r1 r2 H;
    cbn [print_tree app] in H.
  - inversion H. subst. split; reflexivity.
  - discriminate.
  - discriminate.
  - inversion H as [[Hq Hrest]]. clear H.
    apply string_app_inj in Hq.
    rewrite <- !app_assoc in Hrest.
    apply IHt in Hrest. destruct Hrest as [St Hrest].
    cbn [app] in Hrest. inversion Hrest as [Hrest'].
    apply IHf in Hrest'. destruct Hrest' as [Sf Hr].
    cbn [show]. now rewrite Hq, St, Sf.
Qed.

(** X16: what [print_tree] prints tells the tree up to the text of its
    questions: two trees are printed alike exactly when they have the same
    shape, the same predictions in their Leaves and questions with the same
    text. *)
Theorem print_tree_shows (t1 t2 : node) (spacing : string) :
  print_tree t1 spacing = print_tree t2 spacing <-> show t1 = show t2.
Proof.
  split.
  - intro H.
    assert (H' : print_tree t1 spacing ++ [] = print_tree t2 spacing ++ [])
      by (now rewrite H).
    exact (proj1 (print_tree_parse t1 t2 spacing [] [] H')).
  - revert t2 spacing.
    induction t1 as [p1|q1 tb1 IHt fb1 IHf]; intros [p2|q2 tb2 fb2] spacing H;
      cbn [show] in H; try discriminate.
    + now inversion H.
    + inversion H as [[E Et Ef]]. cbn [print_tree].
      now rewrite E, (IHt tb2 _ Et), (IHf fb2 _ Ef).
Qed.



(** The calls of the script on the four rows of the example. *)
Example script_shapes :
  script (A := binary64) (Frame shapes)
  = Some (Ok [Print "Shape U?"; Print "--> True:";
              PrintWith "  Predict" [(Cat "B", 2)];
              Print "--> False:";
              PrintWith "  Predict" [(Cat "A", 2)]]).
Proof. vm_compute. reflexivity. Qed.

(** ** When build_tree stops, in exact arithmetic *)

Lemma filter_perm {X : Type} (p : X -> bool) (l : list X) :
  Permutation l (filter p l ++ filter (fun x => negb (p x)) l).
Proof.
  induction l as [|x l IH]; simpl; [constructor|].
  destruct (p x); simpl.
  - now constructor.
  - now apply Permutation_cons_app.
Qed.

Lemma labels_sides_perm (df : DataFrame) (col : string) (val : scalar) :
  Permutation (labels df)
    (labels (true_side df col val) ++ labels (false_side df col val)).
Proof.
  unfold labels, series_of, true_side, false_side, restrict.
  cbn [columns rows].
  destruct (index_of "Model" (columns df)) as [j|]; [|constructor].
  rewrite <- map_app. apply Permutation_map, filter_perm.
Qed.

Lemma gini_of_exact_perm (l l' : list scalar) :
  Permutation l l' -> gini_of (A := exact) l = gini_of (A := exact) l'.
Proof.
  intro P. rewrite <- (gini_of_exact_reduced l), <- (gini_of_exact_reduced l').
  apply Qred_complete. rewrite !gini_of_exact. now apply gini_formula_perm.
Qed.

Lemma Qsum_zero_inv (l : list Q) :
  Forall (fun x => (0 <= x)%Q) l -> (Qsum l == 0)%Q ->
  Forall (fun x => (x == 0)%Q) l.
Proof.
  induction 1 as [|x l Hx Hl IH]; intro S; [constructor|].
  rewrite Qsum_cons in S. pose proof (Qsum_nonneg l Hl) as N.
  constructor; [lra|]. apply IH. lra.
Qed.

Lemma label_gain_zero_inv (a b l r : Q) :
  (0 < l)%Q -> (0 < r)%Q -> (label_gain a b l r == 0)%Q ->
  (a * r == b * l)%Q.
Proof.
  intros Hl Hr Z. rewrite (label_gain_square a b l r Hl Hr) in Z.
  assert (D : (0 < (l + r) * (l + r) * l * r)%Q).
  { assert (0 < l + r)%Q by lra.
    repeat apply Qmult_lt_0_compat; assumption. }
  assert (S : ((a * r - b * l) * (a * r - b * l) == 0)%Q).
  { setoid_replace ((a * r - b * l) * (a * r - b * l))%Q
      with (((a * r - b * l) * (a * r - b * l)
             / ((l + r) * (l + r) * l * r))
            * ((l + r) * (l + r) * l * r))%Q
      by (field; repeat split; lra).
    rewrite Z. ring. }
  assert (E : (a * r - b * l == 0)%Q)
    by (apply Qmult_integral in S; now destruct S).
  setoid_replace (a * r)%Q with ((a * r - b * l) + b * l)%Q by ring.
  rewrite E. ring.
Qed.

Lemma qnat_inj (a b : nat) : (qnat a == qnat b)%Q -> a = b.
Proof.
  unfold qnat. intro H. apply Nat2Z.inj. now apply inject_Z_injective.
Qed.

(** The gain of a scored candidate is not negative, and it is 0 exactly
    when the two sides have the same label distribution. *)
Lemma gain_at_exact (df : DataFrame) (c : string * scalar) :
  wf df -> scored df c = true ->
  (0 <= gain_at (A := exact) df c)%Q /\
  ((gain_at (A := exact) df c == 0)%Q <->
   forall k,
     count k (labels (true_side df (fst c) (snd c)))
     * length (rows (false_side df (fst c) (snd c)))
     = count k (labels (false_side df (fst c) (snd c)))
       * length (rows (true_side df (fst c) (snd c)))).
Proof.
  intros W S. destruct (scored_sides df c S) as [[P1 _] [P2 _]].
  set (T := true_side df (fst c) (snd c)) in *.
  set (F := false_side df (fst c) (snd c)) in *.
  assert (Wt : wf T) by (apply wf_restrict; exact W).
  assert (Wf : wf F) by (apply wf_restrict; exact W).
  pose proof (labels_length T Wt) as Lt.
  pose proof (labels_length F Wf) as Lf.
  assert (Nt : labels T <> []).
  { intro N. rewrite N in Lt. cbn [length] in Lt. rewrite <- Lt in P1. lia. }
  assert (Nf : labels F <> []).
  { intro N. rewrite N in Lf. cbn [length] in Lf. rewrite <- Lf in P2. lia. }
  unfold gain_at. fold T F.
  rewrite (gini_of_exact_perm (labels df) (labels T ++ labels F)
             (labels_sides_perm df (fst c) (snd c))).
  rewrite (gain_of_exact (labels T) (labels F) Nt Nf). rewrite Lt, Lf.
  pose proof (qnat_pos _ P1) as Qt. pose proof (qnat_pos _ P2) as Qf.
  assert (NN : Forall (fun x => (0 <= x)%Q)
                 (map (fun k => label_gain (qnat (count k (labels T)))
                                  (qnat (count k (labels F)))
                                  (qnat (length (rows T)))
                                  (qnat (length (rows F))))
                      (nodup scalar_eq_dec (labels T ++ labels F)))).
  { apply Forall_forall. intros x Hx. apply in_map_iff in Hx.
    destruct Hx as (k & <- & _). now apply label_gain_nonneg. }
  split; [now apply Qsum_nonneg|]. split.
  - intros Z k. apply (Qsum_zero_inv _ NN) in Z.
    destruct (in_dec scalar_eq_dec k (labels T ++ labels F)) as [I|N].
    + rewrite Forall_forall in Z.
      assert (G : (label_gain (qnat (count k (labels T)))
                     (qnat (count k (labels F)))
                     (qnat (length (rows T))) (qnat (length (rows F)))
                   == 0)%Q).
      { apply Z. apply in_map_iff. exists k. split; [reflexivity|].
        now apply nodup_In. }
      apply label_gain_zero_inv in G; [|assumption|assumption].
      rewrite <- !qnat_mult in G. now apply qnat_inj.
    + assert (C1 : count k (labels T) = 0).
      { unfold count. apply count_occ_not_In. intro H. apply N.
        apply in_or_app. now left. }
      assert (C2 : count k (labels F) = 0).
      { unfold count. apply count_occ_not_In. intro H. apply N.
        apply in_or_app. now right. }
      rewrite C1, C2. reflexivity.
  - intro D. apply Qsum_zero, Forall_forall. intros x Hx.
    apply in_map_iff in Hx. destruct Hx as (k & <- & _).
    apply label_gain_zero; [exact Qt|exact Qf|].
    rewrite <- !qnat_mult. now rewrite D.
Qed.

Lemma leaf_iff_zero_gain {A : Arithmetic} (df : DataFrame) (g : num)
    (q : option Question.t) :
  wf df -> find_best_split (Frame df) = Ok (g, q) ->
  (exists counts, build_tree (Frame df) = Some (Ok (Leaf counts)))
  <-> eqb g (of_int 0) = true.
Proof.
  intros W E. unfold build_tree. cbn [build_tree_fuel]. rewrite E.
  destruct (eqb g (of_int 0)).
  - rewrite (make_leaf_tally df W). split; [reflexivity|].
    intros _. now exists (tally (labels df)).
  - split; [|discriminate]. intros [counts H]. exfalso.
    destruct q as [q|]; [|discriminate].
    destruct (partition (Frame df) (Question.col q) (Question.value q))
      as [[t f]|e]; [|discriminate].
    destruct (build_tree_fuel (len (Frame df)) t) as [[tt|e]|];
      try discriminate.
    destruct (build_tree_fuel (len (Frame df)) f) as [[tf|e]|];
      discriminate.
Qed.

Lemma scored_iff (df : DataFrame) (c : string * scalar) :
  scored df c = true
  <-> 0 < length (rows (true_side df (fst c) (snd c))) /\
      0 < length (rows (false_side df (fst c) (snd c))).
Proof.
  unfold scored. rewrite negb_true_iff, orb_false_iff, !Nat.eqb_neq. lia.
Qed.



(** ** unique_vals *)

Lemma fold_see_head (l seen : list scalar) (a : scalar) :
  exists rest, fold_left see l (a :: seen) = a :: rest.
Proof.
  revert seen. induction l as [|x l IH]; intro seen; simpl.
  - now exists seen.
  - unfold see at 2. destruct (existsb (scalar_eqb x) (a :: seen)).
    + apply IH.
    + apply (IH (seen ++ [x])).
Qed.


